(** * BG-remover: the image-processing pipeline of [app.py]

    A shallow embedding of the processing code of the Streamlit application
    ([resize_image], [process_image] with its [st.cache_data] memoisation, and
    the upload branch of [main]) together with the properties of the
    pipeline that the specification records.

    Layout:
    - [PyFloat]: Python's [float] (IEEE 754 binary64, round to nearest even)
      on rationals, with the mixed int/float operations the code uses;
    - [CFloat]: C's [float] (binary32), in which Pillow blends;
    - [Pillow]: images and the Pillow operations whose pixel arithmetic the
      properties depend on ([Image.new], [paste] with an RGBA matte,
      [convert] from RGBA to RGB);
    - [ImageEnhance]: Pillow's contrast enhancer (the mean grey of
      [ImageStat] and the blend of [Blend.c]);
    - the external collaborators (decoder, resampler, filters, rembg) as a
      record of functions, so that every theorem holds for any implementation;
    - the application code itself;
    - a test double of the collaborators, used to run the code on concrete
      inputs;
    - the properties: the error bounds of rounding first, then the resizer,
      the compositor, the enhancer, the page and the pipeline. *)

From Stdlib Require Import ZArith QArith Qround Qabs Qpower Lia Lqa.
From Stdlib.Strings Require Byte.
From Stdlib Require Import Ascii.
From stdpp Require Import base gmap strings list.

(** ** Python exceptions and the error monad *)

(** An exception is its class name and its message ([str(e)]). *)
Record exn : Type := Exn { exn_type : string; exn_msg : string }.

Definition str (e : exn) : string := exn_msg e.

(** [res A]: a computation that returns an [A] or raises. *)
Definition res (A : Type) : Type := exn + A.

Definition ok {A} (a : A) : res A := inr a.
Definition raise {A} (e : exn) : res A := inl e.

Definition rbind {A B} (c : res A) (k : A -> res B) : res B :=
  match c with
  | inl e => inl e
  | inr a => k a
  end.

Notation "'let?' x ':=' c 'in' k" := (rbind c (fun x => k))
  (at level 10, x pattern, c at level 100, k at level 200).

(** ** Python floats *)

Module PyFloat.
Local Open Scope Q_scope.

(** [floor (log2 x)] for a positive rational. *)
Definition ilog2 (x : Q) : Z :=
  let l := (Z.log2 (Qnum x) - Z.log2 (Zpos (Qden x)))%Z in
  if Qle_bool (2 ^ l) x then l else (l - 1)%Z.

(** Nearest integer, ties to even. *)
Definition rne (x : Q) : Z :=
  let f := Qfloor x in
  match Qcompare (x - inject_Z f) (1 # 2) with
  | Lt => f
  | Gt => (f + 1)%Z
  | Eq => if Z.even f then f else (f + 1)%Z
  end.

(** binary64: 53 bits of precision, least exponent of a unit in the last
    place -1074 (subnormals), overflow at [2 ^ 1024]. *)
Definition prec : Z := 53.
Definition emin : Z := -1074.
Definition emax : Z := 1024.

(** The exponent of the unit in the last place of a positive [x]. *)
Definition ulp_exp (x : Q) : Z := Z.max (ilog2 x - (prec - 1)) emin.

(** Rounding of a positive rational to the nearest multiple of its unit in
    the last place. *)
Definition round_pos (x : Q) : Q :=
  let e := ulp_exp x in inject_Z (rne (x / 2 ^ e)) * 2 ^ e.

Definition round_fin (x : Q) : Q :=
  match Qcompare x 0 with
  | Eq => 0
  | Gt => round_pos x
  | Lt => - round_pos (- x)
  end.

(** A float that is not a NaN: a finite value or an infinity (the sign of
    an infinity plays no role in the code). *)
Inductive float : Type :=
| Finite (q : Q)
| Infinite.

(** Correct rounding of an exact real result. *)
Definition round (x : Q) : float :=
  let y := round_fin x in
  if Qle_bool (2 ^ emax) (Qabs y) then Infinite else Finite y.

Definition ZeroDivisionError (msg : string) : exn := Exn "ZeroDivisionError" msg.
Definition OverflowError (msg : string) : exn := Exn "OverflowError" msg.

(** [float(n)] for an int [n]. *)
Definition of_int (n : Z) : res Q :=
  match round (inject_Z n) with
  | Finite q => ok q
  | Infinite => raise (OverflowError "int too large to convert to float")
  end.

(** [a / b] for two ints: the correctly rounded quotient. *)
Definition truediv_int_int (a b : Z) : res Q :=
  if (b =? 0)%Z then raise (ZeroDivisionError "division by zero")
  else match round (inject_Z a / inject_Z b) with
       | Finite q => ok q
       | Infinite =>
           raise (OverflowError "integer division result too large for a float")
       end.

(** [a / y] for an int [a] and a finite float [y]. *)
Definition truediv_int_float (a : Z) (y : Q) : res float :=
  let? x := of_int a in
  if Qeq_bool y 0 then raise (ZeroDivisionError "float division by zero")
  else ok (round (x / y)).

(** [a * y] for an int [a] and a finite float [y]. *)
Definition mul_int_float (a : Z) (y : Q) : res float :=
  let? x := of_int a in ok (round (x * y)).

(** Truncation toward zero. *)
Definition Qtrunc (x : Q) : Z :=
  if Qle_bool 0 x then Qfloor x else Qceiling x.

(** [int(x)] for a float [x]. *)
Definition int_of_float (x : float) : res Z :=
  match x with
  | Finite q => ok (Qtrunc q)
  | Infinite => raise (OverflowError "cannot convert float infinity to integer")
  end.

(** Half a unit in the last place, relative to the value: [2 ^ -53]. *)
Definition half_ulp : Q := 1 # 9007199254740992.

(** The positive ints up to [2 ^ 50]: they and their quotients are far from
    the ends of the range of binary64. *)
Definition small_int (n : Z) : Prop := (0 < n <= 2 ^ 50)%Z.
End PyFloat.

(** ** C floats *)

Module CFloat.
Local Open Scope Q_scope.

(** binary32: 24 bits of precision, least exponent of a unit in the last
    place -149. The values the blend computes are below [2 ^ 10] in
    magnitude, far from overflow, which is not modelled. *)
Definition prec : Z := 24.
Definition emin : Z := -149.

Definition ulp_exp (x : Q) : Z := Z.max (PyFloat.ilog2 x - (prec - 1)) emin.

Definition round_pos (x : Q) : Q :=
  let e := ulp_exp x in inject_Z (PyFloat.rne (x / 2 ^ e)) * 2 ^ e.

(** Rounding to the nearest [float], ties to even. *)
Definition round (x : Q) : Q :=
  match Qcompare x 0 with
  | Eq => 0
  | Gt => round_pos x
  | Lt => - round_pos (- x)
  end.

(** [(float)x] for a double [x]; the product and the sum of two floats; the
    fused multiply-add [x * y + z], rounded once. *)
Definition of_double (x : Q) : Q := round x.
Definition mul (x y : Q) : Q := round (x * y).
Definition add (x y : Q) : Q := round (x + y).
Definition fma (x y z : Q) : Q := round (x * y + z).
End CFloat.

(** ** Pillow images *)

Module Pillow.
Local Open Scope Z_scope.

(** A pixel as Pillow stores it for the modes RGB and RGBA: four 8-bit
    channels (the fourth is padding, 255, in mode RGB). *)
Record pixel : Type := Pixel { R : Z; G : Z; B : Z; A : Z }.

(** An image: [im.mode], [im.size] = (width, height) and
    [im.getpixel((x, y))]. *)
Record Image : Type :=
  { mode : string; size : Z * Z; getpixel : Z -> Z -> pixel }.

Definition width (im : Image) : Z := fst (size im).
Definition height (im : Image) : Z := snd (size im).

Definition channel_ok (c : Z) : Prop := 0 <= c <= 255.

Definition pixel_ok (p : pixel) : Prop :=
  channel_ok (R p) /\ channel_ok (G p) /\ channel_ok (B p) /\ channel_ok (A p).

(** Every pixel of the raster holds bytes. *)
Definition pixels_ok (im : Image) : Prop :=
  forall x y, 0 <= x < width im -> 0 <= y < height im -> pixel_ok (getpixel im x y).

Definition ValueError (msg : string) : exn := Exn "ValueError" msg.

(** [Image.new(mode, size, color)] with the colour already parsed. *)
Definition new (mode : string) (size : Z * Z) (color : pixel) : res Image :=
  if (fst size <? 0) || (snd size <? 0)
  then raise (ValueError "Width and height must be >= 0")
  else ok {| mode := mode; size := size; getpixel := fun _ _ => color |}.

(** The macros of Pillow's [Paste.c]:
    [DIV255(a, tmp) = (tmp = a + 128, ((tmp >> 8) + tmp) >> 8)] and
    [BLEND(mask, in1, in2, tmp) = DIV255(in1 * (255 - mask) + in2 * mask, tmp)]. *)
Definition DIV255 (a : Z) : Z :=
  let tmp := a + 128 in Z.shiftr (Z.shiftr tmp 8 + tmp) 8.

Definition BLEND (mask in1 in2 : Z) : Z :=
  DIV255 (in1 * (255 - mask) + in2 * mask).

Definition blend_pixel (mask : Z) (out inp : pixel) : pixel :=
  {| R := BLEND mask (R out) (R inp);
     G := BLEND mask (G out) (G inp);
     B := BLEND mask (B out) (B inp);
     A := BLEND mask (A out) (A inp) |}.

(** [dst.paste(im, box, mask)] for three RGBA images ([paste_mask_RGBA]):
    inside the box every band of [dst] is blended with [im], weighted by the
    alpha band of [mask]; [im] and [mask] must have the size of the box. *)
Definition paste_RGBA (dst im : Image) (box : Z * Z) (mask : Image) : res Image :=
  if negb (bool_decide (size mask = size im))
  then raise (ValueError "images do not match")
  else
    let '(dx, dy) := box in
    ok {| mode := mode dst;
          size := size dst;
          getpixel := fun x y =>
            if (dx <=? x) && (x <? dx + width im) && (dy <=? y) && (y <? dy + height im)
            then blend_pixel (A (getpixel mask (x - dx) (y - dy)))
                             (getpixel dst x y) (getpixel im (x - dx) (y - dy))
            else getpixel dst x y |}.

(** [im.convert("RGB")] for an RGBA image ([rgba2rgb]): the colour bands are
    copied and the fourth byte is set to 255. *)
Definition rgba2rgb (im : Image) : Image :=
  {| mode := "RGB";
     size := size im;
     getpixel := fun x y =>
       let p := getpixel im x y in {| R := R p; G := G p; B := B p; A := 255 |} |}.
End Pillow.

Export Pillow.

(** ** Pillow's contrast enhancer *)

Module ImageEnhance.
Import PyFloat.
Local Open Scope Z_scope.

(** [L24(rgb) >> 16] of [Convert.c]: the grey level of a pixel in
    [image.convert("L")]. *)
Definition L (p : pixel) : Z :=
  Z.shiftr (R p * 19595 + G p * 38470 + B p * 7471 + 32768) 16.

(** The sum of the grey levels of the first [n] pixels, in raster order
    ([ImageStat.Stat(..).sum[0]], computed from the histogram). *)
Fixpoint sum_L (im : Image) (n : nat) : Z :=
  match n with
  | O => 0
  | S k => L (getpixel im (Z.of_nat k mod width im) (Z.of_nat k / width im))
           + sum_L im k
  end.

(** [int(ImageStat.Stat(image.convert("L")).mean[0] + 0.5)]: the sum is a
    float (exact below [2 ^ 53]), divided by the int count of pixels. *)
Definition mean (im : Image) : res Z :=
  let count := width im * height im in
  let? sum := of_int (sum_L im (Z.to_nat count)) in
  let? count := of_int count in
  if Qeq_bool count 0 then raise (ZeroDivisionError "float division by zero")
  else match round (sum / count) with
       | Finite m => int_of_float (round (m + (1 # 2))%Q)
       | Infinite => int_of_float Infinite
       end.

(** [Image.new("L", image.size, mean).convert(image.mode)], with the alpha
    band of the image put in when it has one. *)
Definition degenerate (im : Image) (mean : Z) : Image :=
  {| mode := mode im; size := size im;
     getpixel := fun x y =>
       {| R := mean; G := mean; B := mean;
          A := if String.eqb (mode im) "RGBA" then A (getpixel im x y) else 255 |} |}.

(** The value [in1 + alpha * (in2 - in1)] of [ImagingBlend] ([Blend.c]),
    with [alpha] a [float] and the bytes converted to [float]: the product
    and the sum are each rounded to [float], unless the compiler contracts
    them into one fused multiply-add, as C allows and as compilers do for
    processors that have the instruction (the baseline x86-64 has not);
    [fused] says which. *)
Definition blend_value (fused : bool) (alpha : Q) (in1 in2 : Z) : Q :=
  let delta := inject_Z (in2 - in1) in
  if fused then CFloat.fma alpha delta (inject_Z in1)
  else CFloat.add (inject_Z in1) (CFloat.mul alpha delta).

(** One byte of the blend: interpolation casts the value to [UINT8],
    extrapolation clips it first. *)
Definition blend_channel (fused : bool) (alpha : Q) (in1 in2 : Z) : Z :=
  let temp := blend_value fused alpha in1 in2 in
  if Qle_bool 0 alpha && Qle_bool alpha 1 then Qtrunc temp
  else if Qle_bool temp 0 then 0
  else if Qle_bool 255 temp then 255
  else Qtrunc temp.

Definition blend_bands (fused : bool) (alpha : Q) (p1 p2 : pixel) : pixel :=
  {| R := blend_channel fused alpha (R p1) (R p2);
     G := blend_channel fused alpha (G p1) (G p2);
     B := blend_channel fused alpha (B p1) (B p2);
     A := blend_channel fused alpha (A p1) (A p2) |}.

(** [Image.blend(im1, im2, alpha)]: the double [alpha] is cast to [float]. *)
Definition blend (fused : bool) (im1 im2 : Image) (alpha : Q) : res Image :=
  let alpha := CFloat.of_double alpha in
  if negb (String.eqb (mode im1) (mode im2) && bool_decide (size im1 = size im2))
  then raise (ValueError "images do not match")
  else if Qeq_bool alpha 0 then ok im1
  else if Qeq_bool alpha 1 then ok im2
  else ok {| mode := mode im1; size := size im1;
             getpixel := fun x y =>
               blend_bands fused alpha (getpixel im1 x y) (getpixel im2 x y) |}.

(** [ImageEnhance.Contrast(image).enhance(factor)]; [factor] is the decimal
    literal, read as a double. *)
Definition Contrast_enhance (fused : bool) (image : Image) (factor : Q) : res Image :=
  let? mean := mean image in
  blend fused (degenerate image mean) image (round_fin factor).
End ImageEnhance.

(** ** Uploaded bytes, options and the observable events *)

Abbreviation bytes := (list Byte.byte).

#[global] Instance byte_eq_dec : EqDecision Byte.byte.
Proof.
  intros x y. destruct (decide (Byte.to_N x = Byte.to_N y)) as [E | N].
  - left. apply (f_equal Byte.of_N) in E. rewrite !Byte.of_to_N in E. congruence.
  - right. congruence.
Defined.

#[global] Instance byte_countable : Countable Byte.byte :=
  inj_countable Byte.to_N Byte.of_N Byte.of_to_N.

(** [st.session_state.session_options]: a dict with six fixed keys. *)
Record SessionOptions : Type :=
  { alpha_matting : bool;
    fg_threshold : Z;
    bg_threshold : Z;
    bg_color : string;
    use_sharpen : bool;
    use_contrast : bool }.

#[global] Instance SessionOptions_eq_dec : EqDecision SessionOptions.
Proof. solve_decision. Defined.

#[global] Instance SessionOptions_countable : Countable SessionOptions :=
  inj_countable'
    (fun o => (alpha_matting o, fg_threshold o, bg_threshold o,
               bg_color o, use_sharpen o, use_contrast o))
    (fun t => let '(am, fg, bg, c, sh, co) := t in
              {| alpha_matting := am; fg_threshold := fg; bg_threshold := bg;
                 bg_color := c; use_sharpen := sh; use_contrast := co |})
    (fun o => match o with Build_SessionOptions _ _ _ _ _ _ => eq_refl end).

(** What the program does to the outside: calls of the library functions and
    of the Streamlit elements, in order. *)
Inductive event : Type :=
| Call_open (image_bytes : bytes)
| Call_convert (mode : string)
| Call_resize (size : Z * Z)
| Call_filter_SHARPEN
| Call_Contrast_enhance (factor : Q)
| Call_remove (alpha_matting : bool) (fg bg : Z)
| Call_getcolor (color : string)
| Call_save (format : string)
| St_error (msg : string)
| St_info (msg : string)
| St_success
| St_image (image : Image) (caption : string)
| St_download_button (data : bytes) (file_name mime : string).

(** The Streamlit elements, which a cached function replays on a hit. *)
Definition is_st_element (ev : event) : bool :=
  match ev with
  | St_error _ | St_info _ | St_success | St_image _ _ | St_download_button _ _ _ => true
  | _ => false
  end.

(** ** Programs: a result or an exception, and the events so far *)

Definition prog (A : Type) : Type := list event -> res A * list event.

Definition pret {A} (a : A) : prog A := fun t => (ok a, t).

Definition pbind {A B} (c : prog A) (k : A -> prog B) : prog B :=
  fun t => match c t with
           | (inl e, t') => (inl e, t')
           | (inr a, t') => k a t'
           end.

Notation "'let!' x ':=' c 'in' k" := (pbind c (fun x => k))
  (at level 10, x pattern, c at level 100, k at level 200).

(** A pure computation that may raise. *)
Definition lift {A} (r : res A) : prog A := fun t => (r, t).

(** A call of a library function: the call is recorded, then it returns or
    raises. *)
Definition call {A} (ev : event) (r : res A) : prog A := fun t => (r, t ++ [ev]).

(** A Streamlit element. *)
Definition st (ev : event) : prog unit := fun t => (ok tt, t ++ [ev]).

(** ** The external collaborators *)

(** The library functions the application calls and does not define. Where a
    method of Pillow is modelled above for the modes the pipeline produces,
    the collaborator covers the other modes. *)
Record Collaborators : Type :=
  { (** [Image.open(BytesIO(b))] and the decoding of the raster *)
    Image_open : bytes -> res Image;
    (** [im.convert(mode)], other than RGBA to RGB *)
    convert_other : Image -> string -> res Image;
    (** [im.resize(size, Image.Resampling.LANCZOS)] *)
    Image_resize : Image -> Z * Z -> res Image;
    (** [im.filter(ImageFilter.SHARPEN)] *)
    filter_SHARPEN : Image -> res Image;
    (** [ImageEnhance.Contrast(im).enhance(factor)] *)
    Contrast_enhance : Image -> Q -> res Image;
    (** rembg's [remove(im, alpha_matting=.., ..foreground_threshold=..,
        ..background_threshold=..)] *)
    remove : Image -> bool -> Z -> Z -> res Image;
    (** [ImageColor.getcolor(color, "RGBA")], inside [Image.new] *)
    getcolor : string -> res pixel;
    (** [dst.paste(im, box, mask)], other than for three RGBA images *)
    paste_other : Image -> Image -> Z * Z -> Image -> res Image;
    (** [im.save(buf, format=format)] and [buf.getvalue()] *)
    save : Image -> string -> res bytes;
    (** the content of [./zebra.jpg], when the file exists *)
    zebra_jpg : option bytes }.

(** ** The application *)

Import PyFloat.

Local Open Scope Z_scope.

(** Constants *)
Definition MAX_FILE_SIZE : Z := 15 * 1024 * 1024.
Definition MAX_IMAGE_DIM : Z := 2500.

(** The computation of the new size in [resize_image] (the lines between the
    early return and the call of [image.resize]). *)
Definition resize_image_size (width height max_dim : Z) : res (Z * Z) :=
  let? aspect_ratio := truediv_int_int width height in
  if height <? width then
    let new_width := max_dim in
    let? q := truediv_int_float new_width aspect_ratio in
    let? new_height := int_of_float q in
    ok (new_width, new_height)
  else
    let new_height := max_dim in
    let? q := mul_int_float new_height aspect_ratio in
    let? new_width := int_of_float q in
    ok (new_width, new_height).

Section App.
Context (lib : Collaborators).

(** *** Methods of [Image], as the application calls them *)

Definition Image_convert (im : Image) (m : string) : prog Image :=
  call (Call_convert m)
       (if String.eqb (mode im) "RGBA" && String.eqb m "RGB"
        then ok (rgba2rgb im)
        else convert_other lib im m).

Definition Image_new (m : string) (sz : Z * Z) (color : string) : prog Image :=
  let! c := call (Call_getcolor color) (getcolor lib color) in
  lift (Pillow.new m sz c).

Definition Image_paste (dst im : Image) (box : Z * Z) (mask : Image) : prog Image :=
  lift (if String.eqb (mode dst) "RGBA" && String.eqb (mode im) "RGBA"
           && String.eqb (mode mask) "RGBA"
        then paste_RGBA dst im box mask
        else paste_other lib dst im box mask).

(** *** Core image processing functions *)

Definition convert_image_to_bytes (img : Image) (format : string) : prog bytes :=
  call (Call_save format) (save lib img format).

Definition resize_image (image : Image) (max_dim : Z) : prog Image :=
  let '(width, height) := size image in
  if (width <=? max_dim) && (height <=? max_dim) then pret image
  else
    let! new_size := lift (resize_image_size width height max_dim) in
    call (Call_resize new_size) (Image_resize lib image new_size).

(** "Apply pre-processing filters if enabled"; [12 # 10] is the literal
    [1.2]. *)
Definition enhance (session_options : SessionOptions) (resized_image : Image)
  : prog Image :=
  let processed_image := resized_image in
  let! processed_image :=
    if use_sharpen session_options
    then call Call_filter_SHARPEN (filter_SHARPEN lib processed_image)
    else pret processed_image in
  let! processed_image :=
    if use_contrast session_options
    then call (Call_Contrast_enhance (12 # 10))
              (Contrast_enhance lib processed_image (12 # 10))
    else pret processed_image in
  pret processed_image.

(** "Post-processing: Add a custom background color" *)
Definition composite (session_options : SessionOptions) (removed_bg_image : Image)
  : prog Image :=
  if negb (String.eqb (bg_color session_options) "transparent") then
    let! bg_image :=
      Image_new "RGBA" (size removed_bg_image) (bg_color session_options) in
    let! bg_image := Image_paste bg_image removed_bg_image (0, 0) removed_bg_image in
    let! final_image := Image_convert bg_image "RGB" in
    pret final_image
  else
    let final_image := removed_bg_image in
    pret final_image.

(** The body of the [try] block of [process_image]. *)
Definition process_image_try (image_bytes : bytes) (session_options : SessionOptions)
  : prog (Image * Image) :=
  let! original_image := call (Call_open image_bytes) (Image_open lib image_bytes) in
  let! original_image :=
    if negb (String.eqb (mode original_image) "RGBA")
    then Image_convert original_image "RGBA"
    else pret original_image in
  let! resized_image := resize_image original_image MAX_IMAGE_DIM in
  let! processed_image := enhance session_options resized_image in
  let! removed_bg_image :=
    call (Call_remove (alpha_matting session_options) (fg_threshold session_options)
                      (bg_threshold session_options))
         (remove lib processed_image (alpha_matting session_options)
                 (fg_threshold session_options) (bg_threshold session_options)) in
  let! final_image := composite session_options removed_bg_image in
  pret (resized_image, final_image).

(** [process_image] without its decorator: the [try] block and the handler
    [except Exception as e], which reports and returns [None, None]. *)
Definition process_image_func (image_bytes : bytes) (session_options : SessionOptions)
  : list event -> (option Image * option Image) * list event :=
  fun t =>
    match process_image_try image_bytes session_options t with
    | (inr (resized_image, final_image), t') =>
        ((Some resized_image, Some final_image), t')
    | (inl e, t') =>
        ((None, None),
         t' ++ [St_error ("Error during image processing: " +:+ str e)])
    end.
End App.

(** ** The cache of [st.cache_data] and the page *)

(** An entry of the cache: the returned value, the Streamlit elements the
    function emitted (replayed on a hit) and the time of insertion. *)
Record CacheEntry : Type :=
  { value : option Image * option Image;
    elements : list event;
    inserted : Z }.

(** The state of the process: the cache of [process_image] and the events so
    far. *)
Record World : Type :=
  { cache : gmap (bytes * SessionOptions) CacheEntry;
    trace : list event }.

Definition wprog (A : Type) : Type := World -> res A * World.

Definition wret {A} (a : A) : wprog A := fun w => (ok a, w).

Definition wbind {A B} (c : wprog A) (k : A -> wprog B) : wprog B :=
  fun w => match c w with
           | (inl e, w') => (inl e, w')
           | (inr a, w') => k a w'
           end.

Notation "'let+' x ':=' c 'in' k" := (wbind c (fun x => k))
  (at level 10, x pattern, c at level 100, k at level 200).

(** A program that does not touch the cache. *)
Definition on_trace {A} (c : prog A) : wprog A :=
  fun w => let '(r, t) := c (trace w) in (r, {| cache := cache w; trace := t |}).

(** [ttl=3600], in seconds. *)
Definition ttl : Z := 3600.

Module UploadedFile.
(** Streamlit's [UploadedFile]: [name], [size] and [getvalue()]. *)
Record t : Type := { name : string; size : Z; getvalue : bytes }.
End UploadedFile.

(** [s.split('.')[0]] *)
Fixpoint before_dot (s : string) : string :=
  match s with
  | EmptyString => EmptyString
  | String c r => if Ascii.eqb c "."%char then EmptyString else String c (before_dot r)
  end.

(** [s.lower()] on ASCII letters *)
Definition lower_ascii (c : Ascii.ascii) : Ascii.ascii :=
  let n := Ascii.N_of_ascii c in
  if ((65 <=? n) && (n <=? 90))%N then Ascii.ascii_of_N (n + 32) else c.

Fixpoint lower (s : string) : string :=
  match s with
  | EmptyString => EmptyString
  | String c r => String (lower_ascii c) (lower r)
  end.

Section Page.
Context (lib : Collaborators).

(** [process_image] as decorated by [@st.cache_data(ttl=3600)]: the key is
    the pair of arguments, by value; a live entry is returned without
    running the function, and its elements are replayed; otherwise the
    function runs and what it returns is stored. [now] is the clock. *)
Definition process_image (now : Z) (image_bytes : bytes)
  (session_options : SessionOptions) : World -> (option Image * option Image) * World :=
  fun w =>
    let key := (image_bytes, session_options) in
    let miss :=
      let '(v, t) := process_image_func lib image_bytes session_options [] in
      (v, {| cache := <[key := {| value := v;
                                  elements := filter (fun ev => is_st_element ev = true) t;
                                  inserted := now |}]> (cache w);
             trace := trace w ++ t |}) in
    match cache w !! key with
    | Some entry =>
        if now <? inserted entry + ttl
        then (value entry, {| cache := cache w; trace := trace w ++ elements entry |})
        else miss
    | None => miss
    end.

Definition display_image_card (image : Image) (caption : string) : wprog unit :=
  on_trace (st (St_image image caption)).

(** The page content of [main], after the sidebar has stored the options:
    [my_upload] is the uploaded file, if any. *)
Definition main (now : Z) (my_upload : option UploadedFile.t)
  (session_options : SessionOptions) : wprog unit :=
  match my_upload with
  | Some my_upload =>
      if MAX_FILE_SIZE <? UploadedFile.size my_upload then
        on_trace (st (St_error
          "File size exceeds the limit of 15MB. Please upload a smaller image."))
      else
        let image_bytes := UploadedFile.getvalue my_upload in
        let+ (original, fixed) :=
          (fun w => let '(v, w') := process_image now image_bytes session_options w in
                    (ok v, w')) in
        match original, fixed with
        | Some original, Some fixed =>
            let+ _ := on_trace (st St_success) in
            let+ _ := display_image_card original "Original Image" in
            let+ _ := display_image_card fixed "Processed Image" in
            let file_format :=
              if String.eqb (bg_color session_options) "transparent"
              then "PNG" else "JPEG" in
            let mime_type :=
              if String.eqb file_format "PNG" then "image/png" else "image/jpeg" in
            let+ data := on_trace (convert_image_to_bytes lib fixed file_format) in
            on_trace (st (St_download_button data
              ("processed_" +:+ before_dot (UploadedFile.name my_upload)
               +:+ "." +:+ lower file_format)
              mime_type))
        | _, _ => wret tt
        end
  | None =>
      let+ _ := on_trace (st (St_info
        "Welcome! Upload an image using the sidebar to get started.")) in
      match zebra_jpg lib with
      | Some default_bytes =>
          let+ example := on_trace (call (Call_open default_bytes)
                                         (Image_open lib default_bytes)) in
          let+ _ := display_image_card example "Example: Original" in
          let sample_options := session_options in
          let+ (_, sample_fixed) :=
            (fun w => let '(v, w') := process_image now default_bytes sample_options w in
                      (ok v, w')) in
          match sample_fixed with
          | Some sample_fixed => display_image_card sample_fixed "Example: Processed"
          | None => wret tt
          end
      | None => wret tt
      end
  end.
End Page.

(** ** A test double of the collaborators

    Executable stand-ins, to run the application on concrete inputs: a
    decoder for binary PPM files (a format Pillow opens), Pillow's own
    arithmetic where it is written down (the 3x3 sharpen kernel, the contrast
    enhancer of [ImageEnhance]), and simple substitutes for what cannot be
    (Lanczos resampling, the segmentation model, the PNG and JPEG encoders).
    No theorem about the application depends on them: they serve as inputs
    of examples. *)

Module TestDouble.
Definition UnidentifiedImageError : exn :=
  Exn "UnidentifiedImageError" "cannot identify image file".

(** *** Binary PPM: [P6 <width> <height> 255] and the RGB raster *)

Definition is_space (b : N) : bool :=
  ((9 <=? b) && (b <=? 13) || (b =? 32))%N.

Definition is_digit (b : N) : bool := ((48 <=? b) && (b <=? 57))%N.

Fixpoint skip_spaces (l : list N) : list N :=
  match l with
  | b :: r => if is_space b then skip_spaces r else l
  | [] => []
  end.

Fixpoint read_digits (acc : N) (l : list N) : N * list N :=
  match l with
  | b :: r => if is_digit b then read_digits (10 * acc + (b - 48))%N r else (acc, l)
  | [] => (acc, [])
  end.

(** A decimal token after at least one space. *)
Definition read_token (l : list N) : option (N * list N) :=
  match l with
  | b :: r =>
      if is_space b then
        match skip_spaces r with
        | (d :: _) as l' => if is_digit d then Some (read_digits 0 l') else None
        | [] => None
        end
      else None
  | [] => None
  end.

Definition raster_pixel (raster : list N) (w : Z) (x y : Z) : pixel :=
  let i := Z.to_nat (3 * (y * w + x)) in
  {| R := Z.of_N (nth i raster 0%N);
     G := Z.of_N (nth (i + 1) raster 0%N);
     B := Z.of_N (nth (i + 2) raster 0%N);
     A := 255 |}.

Definition open_ppm (image_bytes : bytes) : res Image :=
  match map Byte.to_N image_bytes with
  | 80%N :: 54%N :: l =>
      match read_token l with
      | Some (w, l1) =>
          match read_token l1 with
          | Some (h, l2) =>
              match read_token l2 with
              | Some (255%N, sp :: raster) =>
                  if is_space sp && (0 <? w)%N && (0 <? h)%N then
                    if (3 * w * h <=? N.of_nat (length raster))%N then
                      ok {| mode := "RGB";
                            size := (Z.of_N w, Z.of_N h);
                            getpixel := raster_pixel raster (Z.of_N w) |}
                    else raise (Exn "OSError" "image file is truncated")
                  else raise UnidentifiedImageError
              | _ => raise UnidentifiedImageError
              end
          | None => raise UnidentifiedImageError
          end
      | None => raise UnidentifiedImageError
      end
  | _ => raise UnidentifiedImageError
  end.

(** *** Conversions *)

Definition convert (im : Image) (m : string) : res Image :=
  if String.eqb (mode im) m then ok im
  else if String.eqb (mode im) "RGB" && String.eqb m "RGBA" then
    ok {| mode := "RGBA"; size := size im;
          getpixel := fun x y =>
            let p := getpixel im x y in {| R := R p; G := G p; B := B p; A := 255 |} |}
  else raise (ValueError "conversion not supported").

(** *** Resampling: nearest sample, in place of the Lanczos filter *)

Definition resize (im : Image) (sz : Z * Z) : res Image :=
  if (fst sz <? 1) || (snd sz <? 1)
  then raise (ValueError "height and width must be > 0")
  else ok {| mode := mode im; size := sz;
             getpixel := fun x y =>
               getpixel im (x * width im / fst sz) (y * height im / snd sz) |}.

(** *** [ImageFilter.SHARPEN]: the kernel (-2 -2 -2 / -2 32 -2 / -2 -2 -2),
    scale 16, on every band; the pixels of the border are copied. *)

Definition clip8 (v : Z) : Z := Z.max 0 (Z.min 255 v).

Definition sharpen_band (band : pixel -> Z) (im : Image) (x y : Z) : Z :=
  let at_ dx dy := band (getpixel im (x + dx) (y + dy)) in
  let neighbours :=
    at_ (-1) (-1) + at_ 0 (-1) + at_ 1 (-1) + at_ (-1) 0 + at_ 1 0
    + at_ (-1) 1 + at_ 0 1 + at_ 1 1 in
  clip8 ((2 * (32 * at_ 0 0 - 2 * neighbours) + 16) / 32).

Definition sharpen (im : Image) : res Image :=
  ok {| mode := mode im; size := size im;
        getpixel := fun x y =>
          if (1 <=? x) && (x <? width im - 1) && (1 <=? y) && (y <? height im - 1)
          then {| R := sharpen_band R im x y; G := sharpen_band G im x y;
                  B := sharpen_band B im x y; A := sharpen_band A im x y |}
          else getpixel im x y |}.

(** *** Segmentation: the colour of the top-left pixel is the background *)

Definition matte (im : Image) (alpha_matting : bool) (fg bg : Z) : res Image :=
  let c := getpixel im 0 0 in
  ok {| mode := "RGBA"; size := size im;
        getpixel := fun x y =>
          let p := getpixel im x y in
          if (R p =? R c) && (G p =? G c) && (B p =? B c)
          then {| R := R p; G := G p; B := B p; A := 0 |}
          else p |}.

(** *** Colours: [#rrggbb] and [#rrggbbaa] *)

Definition hex_digit (c : ascii) : option Z :=
  let n := Z.of_N (N_of_ascii c) in
  if (48 <=? n) && (n <=? 57) then Some (n - 48)
  else if (97 <=? n) && (n <=? 102) then Some (n - 87)
  else if (65 <=? n) && (n <=? 70) then Some (n - 55)
  else None.

Fixpoint hex_pairs (s : string) : option (list Z) :=
  match s with
  | EmptyString => Some []
  | String a (String b r) =>
      match hex_digit a, hex_digit b, hex_pairs r with
      | Some x, Some y, Some l => Some (16 * x + y :: l)
      | _, _, _ => None
      end
  | String _ EmptyString => None
  end.

Definition parse_color (color : string) : res pixel :=
  match color with
  | String "#" r =>
      match hex_pairs r with
      | Some [r; g; b] => ok {| R := r; G := g; B := b; A := 255 |}
      | Some [r; g; b; a] => ok {| R := r; G := g; B := b; A := a |}
      | _ => raise (ValueError "unknown color specifier")
      end
  | _ => raise (ValueError "unknown color specifier")
  end.

(** *** Encoding: the raster itself; JPEG refuses an alpha band *)

Fixpoint raster_bytes (im : Image) (n : nat) (acc : list Z) : list Z :=
  match n with
  | O => acc
  | S k =>
      let p := getpixel im (Z.of_nat k mod width im) (Z.of_nat k / width im) in
      raster_bytes im k (R p :: G p :: B p :: A p :: acc)
  end.

Definition byte_of_Z (v : Z) : Byte.byte :=
  match Byte.of_N (Z.to_N v) with Some b => b | None => Byte.x00 end.

Definition encode (im : Image) (format : string) : res bytes :=
  if String.eqb format "JPEG" && String.eqb (mode im) "RGBA"
  then raise (Exn "OSError" "cannot write mode RGBA as JPEG")
  else ok (map byte_of_Z (raster_bytes im (Z.to_nat (width im * height im)) [])).

Definition lib : Collaborators :=
  {| Image_open := open_ppm;
     convert_other := convert;
     Image_resize := resize;
     filter_SHARPEN := sharpen;
     Contrast_enhance := ImageEnhance.Contrast_enhance false;
     remove := matte;
     getcolor := parse_color;
     paste_other := fun _ _ _ _ => raise (ValueError "bad transparency mask");
     save := encode;
     zebra_jpg := None |}.
End TestDouble.

(** ** Sample inputs *)

Module Samples.
(** A 3x3 binary PPM file: a grey square with a red centre. *)
Definition red_dot_ppm : bytes :=
  String.list_byte_of_string "P6 3 3 255 " ++
  map TestDouble.byte_of_Z
    [100; 100; 100;  100; 100; 100;  100; 100; 100;
     100; 100; 100;  200; 50; 50;    100; 100; 100;
     100; 100; 100;  100; 100; 100;  100; 100; 100].

(** The options the sidebar starts with. *)
Definition default_options : SessionOptions :=
  {| alpha_matting := true; fg_threshold := 240; bg_threshold := 10;
     bg_color := "#1E1E1E"; use_sharpen := false; use_contrast := false |}.

Definition with_sharpen (o : SessionOptions) : SessionOptions :=
  {| alpha_matting := alpha_matting o; fg_threshold := fg_threshold o;
     bg_threshold := bg_threshold o; bg_color := bg_color o;
     use_sharpen := true; use_contrast := use_contrast o |}.

Definition with_bg_color (c : string) (o : SessionOptions) : SessionOptions :=
  {| alpha_matting := alpha_matting o; fg_threshold := fg_threshold o;
     bg_threshold := bg_threshold o; bg_color := c;
     use_sharpen := use_sharpen o; use_contrast := use_contrast o |}.

Definition with_contrast (o : SessionOptions) : SessionOptions :=
  {| alpha_matting := alpha_matting o; fg_threshold := fg_threshold o;
     bg_threshold := bg_threshold o; bg_color := bg_color o;
     use_sharpen := use_sharpen o; use_contrast := true |}.

(** An image of one colour. *)
Definition plain (m : string) (w h : Z) (p : pixel) : Image :=
  {| mode := m; size := (w, h); getpixel := fun _ _ => p |}.

Definition empty_world : World := {| cache := ∅; trace := [] |}.
End Samples.

(** ** Formulas of the specification *)

Module Spec.
(** The blend of the compositor: [fg * (a/255) + bg * (1 - a/255)]. *)
Definition alpha_blend (fg a bg : Z) : Q :=
  (inject_Z fg * (inject_Z a / 255) + inject_Z bg * (1 - inject_Z a / 255))%Q.

(** The shorter side of the resizer:
    [round(maxDim / (longSide / shortSide))], with Python's [round]. *)
Definition new_short (long_side short_side max_dim : Z) : res Z :=
  let? ratio := truediv_int_int long_side short_side in
  let? q := truediv_int_float max_dim ratio in
  match q with
  | Finite v => ok (rne v)
  | Infinite => raise (OverflowError "cannot convert float infinity to integer")
  end.

(** The size of the resizer: the longer side becomes [maxDim]. *)
Definition resize_size (width height max_dim : Z) : res (Z * Z) :=
  if height <? width then
    let? s := new_short width height max_dim in ok (max_dim, s)
  else
    let? s := new_short height width max_dim in ok (s, max_dim).

(** The contrast rule: the deviation of a channel [v] from the grey level
    [mean], times 1.2, clamped to the range of a channel. *)
Definition clamp (x : Q) : Q :=
  if Qle_bool x 0 then 0%Q else if Qle_bool 255 x then 255%Q else x.

Definition contrast (mean v : Z) : Q :=
  clamp (inject_Z mean + (12 # 10) * inject_Z (v - mean)).
End Spec.

(** The image the compositor builds over a colour [bg]: a raster of [bg],
    the foreground pasted at the origin with itself as the matte, then the
    conversion to RGB. *)
Definition over_color (bg : pixel) (fg : Image) : Image :=
  {| mode := "RGB"; size := size fg;
     getpixel := fun x y =>
       let p :=
         if (0 <=? x) && (x <? 0 + width fg) && (0 <=? y) && (y <? 0 + height fg)
         then blend_pixel (A (getpixel fg (x - 0) (y - 0))) bg
                          (getpixel fg (x - 0) (y - 0))
         else bg in
       {| R := R p; G := G p; B := B p; A := 255 |} |}.

(** Pushes [inject_Z] to the leaves of a hypothesis. *)
Ltac push_inject_Z H :=
  repeat (rewrite inject_Z_plus in H || rewrite inject_Z_mult in H
          || rewrite inject_Z_opp in H).

(** ** Contracts of collaborators and invariants *)

(** Pillow's resampler returns an image of the size it was asked for. *)
Definition resampler_contract (lib : Collaborators) : Prop :=
  forall im sz out, Image_resize lib im sz = ok out -> size out = sz.

(** Pillow's resampler refuses a size with a side below 1. *)
Definition resampler_refuses_empty (lib : Collaborators) : Prop :=
  forall im sz, fst sz < 1 \/ snd sz < 1 ->
    Image_resize lib im sz = raise (ValueError "height and width must be > 0").

(** The contrast enhancer is Pillow's, on the RGBA images of the pipeline,
    as compiled with or without fused multiply-add. *)
Definition contrast_contract (lib : Collaborators) : Prop :=
  exists fused : bool,
    forall im factor,
      mode im = "RGBA" ->
      Contrast_enhance lib im factor = ImageEnhance.Contrast_enhance fused im factor.

(** The float [1.2f]: the literal [1.2], a double, cast to [float]. *)
Definition alpha_12 : Q := CFloat.of_double (PyFloat.round_fin (12 # 10)).

(** What the contrast enhancer makes of a channel [v] of an image of mean
    grey [mean]: the value of the rule rounded down, or one less when that
    value is an integer. *)
Definition contrast_of (mean v c : Z) : Prop :=
  (Spec.contrast mean v - 1 <= inject_Z c <= Spec.contrast mean v)%Q /\
  (~ (5 | v - mean) -> c = Qfloor (Spec.contrast mean v)) /\
  channel_ok c.

(** rembg returns an RGBA image. *)
Definition rembg_contract (lib : Collaborators) : Prop :=
  forall im am fg bg out, remove lib im am fg bg = ok out -> mode out = "RGBA".

(** What [process_image] returns: two images, or [None] twice. *)
Definition both_or_none (v : option Image * option Image) : Prop :=
  match v with
  | (Some _, Some _) | (None, None) => True
  | _ => False
  end.

(** Every value held by the cache is such a pair. *)
Definition cache_ok (w : World) : Prop :=
  forall key entry, cache w !! key = Some entry -> both_or_none (value entry).

(** The calls of the decoder and of rembg. *)
Definition is_open (ev : event) : bool :=
  match ev with Call_open _ => true | _ => false end.

Definition is_remove (ev : event) : bool :=
  match ev with Call_remove _ _ _ => true | _ => false end.

(** An event that is neither. *)
Definition light (ev : event) : Prop := is_open ev = false /\ is_remove ev = false.

(** A program that adds events to the trace, all of them [P]. *)
Definition emits {A} (P : event -> Prop) (c : prog A) : Prop :=
  forall t, exists d, snd (c t) = t ++ d /\ Forall P d.

(** The number of events of a trace that satisfy [p]. *)
Definition count_events (p : event -> bool) (t : list event) : nat :=
  length (List.filter p t).

(** The test double with a file [./zebra.jpg] of the given content. *)
Definition lib_with_example (default_bytes : bytes) : Collaborators :=
  {| Image_open := Image_open TestDouble.lib;
     convert_other := convert_other TestDouble.lib;
     Image_resize := Image_resize TestDouble.lib;
     filter_SHARPEN := filter_SHARPEN TestDouble.lib;
     Contrast_enhance := Contrast_enhance TestDouble.lib;
     remove := remove TestDouble.lib;
     getcolor := getcolor TestDouble.lib;
     paste_other := paste_other TestDouble.lib;
     save := save TestDouble.lib;
     zebra_jpg := Some default_bytes |}.

(** The stages of [process_image], in the order of the [try] block. *)
Inductive stage : Type :=
| Decode | Normalize | Resize | Enhance | RemoveBackground | Composite.

(** "Ensure image is in RGBA format for processing" *)
Definition to_rgba (lib : Collaborators) (original_image : Image) : prog Image :=
  if negb (String.eqb (mode original_image) "RGBA")
  then Image_convert lib original_image "RGBA"
  else pret original_image.

(** The run reaches the end of a stage: the stages up to it returned,
    leaving the given image and trace. *)
Definition reaches_rgba (lib : Collaborators) (b : bytes) (t : list event)
  (rgba : Image) (t1 : list event) : Prop :=
  exists original,
    Image_open lib b = ok original /\
    to_rgba lib original (t ++ [Call_open b]) = (ok rgba, t1).

Definition reaches_resized (lib : Collaborators) (b : bytes) (t : list event)
  (resized : Image) (t2 : list event) : Prop :=
  exists rgba t1,
    reaches_rgba lib b t rgba t1 /\
    resize_image lib rgba MAX_IMAGE_DIM t1 = (ok resized, t2).

Definition reaches_enhanced (lib : Collaborators) (b : bytes) (o : SessionOptions)
  (t : list event) (processed : Image) (t3 : list event) : Prop :=
  exists resized t2,
    reaches_resized lib b t resized t2 /\
    enhance lib o resized t2 = (ok processed, t3).

(** Stage [s] raises [e]: the stages before it returned, [s] raised, and
    [t'] is the trace at that moment. *)
Definition raises_at (lib : Collaborators) (b : bytes) (o : SessionOptions)
  (t : list event) (s : stage) (e : exn) (t' : list event) : Prop :=
  match s with
  | Decode => Image_open lib b = raise e /\ t' = t ++ [Call_open b]
  | Normalize =>
      exists original,
        Image_open lib b = ok original /\
        to_rgba lib original (t ++ [Call_open b]) = (raise e, t')
  | Resize =>
      exists rgba t1,
        reaches_rgba lib b t rgba t1 /\
        resize_image lib rgba MAX_IMAGE_DIM t1 = (raise e, t')
  | Enhance =>
      exists resized t2,
        reaches_resized lib b t resized t2 /\
        enhance lib o resized t2 = (raise e, t')
  | RemoveBackground =>
      exists processed t3,
        reaches_enhanced lib b o t processed t3 /\
        remove lib processed (alpha_matting o) (fg_threshold o) (bg_threshold o) = raise e /\
        t' = t3 ++ [Call_remove (alpha_matting o) (fg_threshold o) (bg_threshold o)]
  | Composite =>
      exists processed t3 removed,
        reaches_enhanced lib b o t processed t3 /\
        remove lib processed (alpha_matting o) (fg_threshold o) (bg_threshold o) = ok removed /\
        composite lib o removed
          (t3 ++ [Call_remove (alpha_matting o) (fg_threshold o) (bg_threshold o)]) =
        (raise e, t')
  end.

(** Reassociates appended traces to the right. *)
Ltac list_assoc := repeat (progress (rewrite <- ?app_assoc; cbn [app])); reflexivity.

(** * Properties *)

(** ** Rounding to binary64 *)

Section PyFloatFacts.
Local Open Scope Q_scope.

Lemma Qpow2_pos (e : Z) : 0 < 2 ^ e.
Proof. apply Qpower_0_lt. reflexivity. Qed.

Lemma Qpow2_of_Z (k : Z) : (0 <= k)%Z -> 2 ^ k == inject_Z (2 ^ k).
Proof. intros Hk. rewrite Zpower_Qpower by assumption. reflexivity. Qed.

(** A quotient of two powers of two, as a fraction of integers. *)
Lemma Qpow2_sub (a b : Z) :
  (0 <= a)%Z -> (0 <= b)%Z -> 2 ^ (a - b) == inject_Z (2 ^ a) / inject_Z (2 ^ b).
Proof.
  intros Ha Hb. rewrite Qpower_minus by discriminate.
  rewrite !Qpow2_of_Z by assumption. reflexivity.
Qed.

Lemma Qfrac_le (n1 n2 d1 d2 : Z) :
  (0 < d1)%Z -> (0 < d2)%Z -> (n1 * d2 <= n2 * d1)%Z ->
  inject_Z n1 / inject_Z d1 <= inject_Z n2 / inject_Z d2.
Proof.
  intros H1 H2 H.
  apply Qle_shift_div_l; [rewrite <- (Zlt_Qlt 0); assumption |].
  unfold Qdiv. rewrite <- Qmult_assoc, (Qmult_comm (/ _)), Qmult_assoc.
  apply Qle_shift_div_r; [rewrite <- (Zlt_Qlt 0); assumption |].
  rewrite <- !inject_Z_mult, <- Zle_Qle. assumption.
Qed.

Lemma Qfrac_lt (n1 n2 d1 d2 : Z) :
  (0 < d1)%Z -> (0 < d2)%Z -> (n1 * d2 < n2 * d1)%Z ->
  inject_Z n1 / inject_Z d1 < inject_Z n2 / inject_Z d2.
Proof.
  intros H1 H2 H.
  apply Qlt_shift_div_l; [rewrite <- (Zlt_Qlt 0); assumption |].
  unfold Qdiv. rewrite <- Qmult_assoc, (Qmult_comm (/ _)), Qmult_assoc.
  apply Qlt_shift_div_r; [rewrite <- (Zlt_Qlt 0); assumption |].
  rewrite <- !inject_Z_mult, <- Zlt_Qlt. assumption.
Qed.

Lemma ilog2_spec (x : Q) : 0 < x -> 2 ^ ilog2 x <= x /\ x < 2 ^ (ilog2 x + 1).
Proof.
  destruct x as [n d]. intros Hx.
  assert (0 < n)%Z as Hn by (unfold Qlt in Hx; simpl in Hx; lia).
  unfold ilog2. cbn [Qnum Qden].
  pose proof (Z.log2_spec n Hn) as [Ha1 Ha2].
  pose proof (Z.log2_spec (Z.pos d) (Pos2Z.is_pos d)) as [Hb1 Hb2].
  pose proof (Z.log2_nonneg n) as Ha0. pose proof (Z.log2_nonneg (Z.pos d)) as Hb0.
  set (a := Z.log2 n) in *. set (b := Z.log2 (Z.pos d)) in *.
  assert (0 < 2 ^ a)%Z as Pa by (apply Z.pow_pos_nonneg; lia).
  assert (0 < 2 ^ b)%Z as Pb by (apply Z.pow_pos_nonneg; lia).
  replace (Z.succ a) with (a + 1)%Z in Ha2 by lia.
  replace (Z.succ b) with (b + 1)%Z in Hb2 by lia.
  assert (2 ^ (a + 1) = 2 * 2 ^ a)%Z as Ea by (rewrite Z.pow_add_r by lia; lia).
  assert (2 ^ (b + 1) = 2 * 2 ^ b)%Z as Eb by (rewrite Z.pow_add_r by lia; lia).
  destruct (Qle_bool (2 ^ (a - b)) (n # d)) eqn:E.
  - split.
    + apply Qle_bool_iff in E. exact E.
    + replace (a - b + 1)%Z with (a + 1 - b)%Z by lia.
      rewrite (Qmake_Qdiv n d), Qpow2_sub by lia.
      apply Qfrac_lt; [lia | lia | nia].
  - split.
    + replace (a - b - 1)%Z with (a - (b + 1))%Z by lia.
      rewrite (Qmake_Qdiv n d), Qpow2_sub by lia. apply Qfrac_le; [| lia | nia].
      apply Z.pow_pos_nonneg; lia.
    + replace (a - b - 1 + 1)%Z with (a - b)%Z by lia.
      apply Qnot_le_lt. intros Hle. apply Qle_bool_iff in Hle. congruence.
Qed.

Lemma rne_spec (y : Q) :
  - (1 # 2) <= inject_Z (rne y) - y <= 1 # 2.
Proof.
  unfold rne. pose proof (Qfloor_le y) as Hl. pose proof (Qlt_floor y) as Hu.
  rewrite inject_Z_plus in Hu. change (inject_Z 1) with 1 in Hu.
  destruct (Qcompare (y - inject_Z (Qfloor y)) (1 # 2)) eqn:E.
  - apply Qeq_alt in E. destruct (Z.even (Qfloor y)).
    + lra.
    + rewrite inject_Z_plus. change (inject_Z 1) with 1. lra.
  - apply Qlt_alt in E. lra.
  - apply Qgt_alt in E. rewrite inject_Z_plus. change (inject_Z 1) with 1. lra.
Qed.

Lemma round_pos_bounds (x : Q) :
  2 ^ (-1022) <= x -> (1 - half_ulp) * x <= round_pos x <= (1 + half_ulp) * x.
Proof.
  intros Hlow.
  assert (0 < x) as Hx.
  { eapply Qlt_le_trans; [apply (Qpow2_pos (-1022)) | exact Hlow]. }
  destruct (ilog2_spec x Hx) as [Hl Hu].
  assert (-1022 <= ilog2 x)%Z as Hnormal.
  { assert (-1022 < ilog2 x + 1)%Z; [| lia].
    apply (Qpower_lt_compat_l_inv 2); [| reflexivity].
    eapply Qle_lt_trans; eassumption. }
  unfold round_pos, ulp_exp, prec, emin.
  rewrite Z.max_l by lia.
  set (e := (ilog2 x - (53 - 1))%Z).
  pose proof (Qpow2_pos e) as HP.
  assert (2 ^ e * 4503599627370496 <= x) as Hulp.
  { eapply Qle_trans; [| exact Hl].
    replace (ilog2 x) with (e + 52)%Z by (unfold e; lia).
    rewrite Qpower_plus by discriminate.
    apply Qle_lteq. right. apply Qmult_comp; reflexivity. }
  pose proof (rne_spec (x / 2 ^ e)) as [Hr1 Hr2].
  set (r := inject_Z (rne (x / 2 ^ e))) in *.
  assert (x == x / 2 ^ e * 2 ^ e) as Hxy.
  { field. intros H0. rewrite H0 in HP. apply (Qlt_irrefl 0 HP). }
  set (y := x / 2 ^ e) in *. set (P := 2 ^ e) in *.
  unfold half_ulp. split; nra.
Qed.

(** A positive value well inside the range of binary64 rounds to a finite
    float within the relative error [half_ulp]. *)
Lemma round_bounds (x : Q) :
  2 ^ (-200) <= x <= 2 ^ 200 ->
  exists y, round x = Finite y /\ (1 - half_ulp) * x <= y <= (1 + half_ulp) * x.
Proof.
  intros [Hlo Hhi].
  assert (2 ^ (-1022) <= x) as Hlow.
  { eapply Qle_trans; [| exact Hlo]. apply Qpower_le_compat_l; [lia | discriminate]. }
  assert (0 < x) as Hx.
  { eapply Qlt_le_trans; [apply (Qpow2_pos (-1022)) | exact Hlow]. }
  pose proof (round_pos_bounds x Hlow) as [Hb1 Hb2].
  exists (round_pos x). split; [| split; assumption].
  unfold round, round_fin. rewrite (proj1 (Qgt_alt x 0) Hx).
  destruct (Qle_bool (2 ^ emax) (Qabs (round_pos x))) eqn:E; [| reflexivity].
  exfalso. apply Qle_bool_iff in E.
  assert (0 <= round_pos x) as Hnn by (unfold half_ulp in Hb1; nra).
  rewrite (Qabs_pos _ Hnn) in E.
  assert (2 ^ 201 <= 2 ^ emax) as Hp.
  { apply Qpower_le_compat_l; [unfold emax; lia | discriminate]. }
  assert (2 ^ 201 == 2 * 2 ^ 200) as E2.
  { change 201%Z with (1 + 200)%Z. rewrite Qpower_plus by discriminate. reflexivity. }
  pose proof (Qpow2_pos 200) as HT.
  set (T := 2 ^ 200) in *. set (T1 := 2 ^ 201) in *. set (T2 := 2 ^ emax) in *.
  unfold half_ulp in Hb2. nra.
Qed.

Lemma pow2_m200_le : 2 ^ (-200) <= 1 # 1329227995784915872903807060280344576.
Proof.
  assert (2 ^ (-120) == 1 # 1329227995784915872903807060280344576) as <- by reflexivity.
  apply Qpower_le_compat_l; [lia | discriminate].
Qed.

Lemma pow2_200_ge : 1329227995784915872903807060280344576 <= 2 ^ 200.
Proof.
  assert (2 ^ 120 == 1329227995784915872903807060280344576) as <- by reflexivity.
  apply Qpower_le_compat_l; [lia | discriminate].
Qed.

(** Bounds between [2 ^ -120] and [2 ^ 120] are inside the range. *)
Lemma in_range (x : Q) :
  (1 # 1329227995784915872903807060280344576) <= x
    <= 1329227995784915872903807060280344576 ->
  2 ^ (-200) <= x <= 2 ^ 200.
Proof.
  intros [H1 H2]. split.
  - eapply Qle_trans; [apply pow2_m200_le | exact H1].
  - eapply Qle_trans; [exact H2 | apply pow2_200_ge].
Qed.

Lemma small_Q (n : Z) : small_int n -> 1 <= inject_Z n <= 1125899906842624.
Proof.
  intros [H1 H2]. split.
  - change 1 with (inject_Z 1). rewrite <- Zle_Qle. lia.
  - change 1125899906842624 with (inject_Z (2 ^ 50)). rewrite <- Zle_Qle. lia.
Qed.

Lemma of_int_bounds (n : Z) :
  small_int n ->
  exists m, of_int n = ok m /\
            (1 - half_ulp) * inject_Z n <= m <= (1 + half_ulp) * inject_Z n.
Proof.
  intros Hn. apply small_Q in Hn.
  destruct (round_bounds (inject_Z n)) as (m & Hm & Hb).
  { apply in_range. lra. }
  exists m. unfold of_int. rewrite Hm. split; [reflexivity | exact Hb].
Qed.

Lemma truediv_int_int_bounds (a b : Z) :
  small_int a -> small_int b ->
  exists q, truediv_int_int a b = ok q /\
            (1 - half_ulp) * inject_Z a <= q * inject_Z b <= (1 + half_ulp) * inject_Z a.
Proof.
  intros Ha Hb. pose proof Hb as [Hb0 _]. apply small_Q in Ha, Hb.
  set (Aq := inject_Z a) in *. set (Bq := inject_Z b) in *.
  assert (Aq / Bq * Bq == Aq) as Hdiv by (field; lra).
  destruct (round_bounds (Aq / Bq)) as (q & Hq & Hbd).
  { apply in_range. split.
    - apply Qle_shift_div_l; [lra |]. nra.
    - apply Qle_shift_div_r; [lra |]. nra. }
  exists q. unfold truediv_int_int.
  rewrite (proj2 (Z.eqb_neq b 0)) by lia. fold Aq Bq. rewrite Hq.
  split; [reflexivity |]. set (x := Aq / Bq) in *. unfold half_ulp in *. nra.
Qed.

Lemma truediv_int_float_bounds (n : Z) (a : Q) :
  small_int n -> (1 # 2251799813685248) <= a <= 2251799813685248 ->
  exists r, truediv_int_float n a = ok (Finite r) /\ 0 <= r /\
            (1 - half_ulp) * (1 - half_ulp) * inject_Z n <= r * a <=
            (1 + half_ulp) * (1 + half_ulp) * inject_Z n.
Proof.
  intros Hn [Ha1 Ha2].
  destruct (of_int_bounds n Hn) as (m & Hm & Hm1 & Hm2).
  apply small_Q in Hn. set (N := inject_Z n) in *.
  assert (m / a * a == m) as Hdiv by (field; lra).
  destruct (round_bounds (m / a)) as (r & Hr & Hr1 & Hr2).
  { apply in_range. unfold half_ulp in *. split.
    - apply Qle_shift_div_l; [lra |]. nra.
    - apply Qle_shift_div_r; [lra |]. nra. }
  exists r. unfold truediv_int_float. rewrite Hm. cbn [rbind ok].
  assert (Qeq_bool a 0 = false) as ->.
  { destruct (Qeq_bool a 0) eqn:E; [| reflexivity].
    apply Qeq_bool_eq in E. lra. }
  rewrite Hr. split; [reflexivity |].
  set (x := m / a) in *. unfold half_ulp in *.
  assert (0 <= x) as Hx0 by nra.
  split; [nra |]. split; nra.
Qed.

Lemma mul_int_float_bounds (n : Z) (a : Q) :
  small_int n -> (1 # 2251799813685248) <= a <= 2251799813685248 ->
  exists r, mul_int_float n a = ok (Finite r) /\ 0 <= r /\
            (1 - half_ulp) * (1 - half_ulp) * (inject_Z n * a) <= r <=
            (1 + half_ulp) * (1 + half_ulp) * (inject_Z n * a).
Proof.
  intros Hn [Ha1 Ha2].
  destruct (of_int_bounds n Hn) as (m & Hm & Hm1 & Hm2).
  apply small_Q in Hn. set (N := inject_Z n) in *.
  destruct (round_bounds (m * a)) as (r & Hr & Hr1 & Hr2).
  { apply in_range. unfold half_ulp in *. split; nra. }
  exists r. unfold mul_int_float. rewrite Hm. cbn [rbind ok]. rewrite Hr.
  split; [reflexivity |].
  assert ((1 - half_ulp) * N * a <= m * a) as Hx1 by (apply Qmult_le_compat_r; lra).
  assert (m * a <= (1 + half_ulp) * N * a) as Hx2 by (apply Qmult_le_compat_r; lra).
  set (x := m * a) in *. set (y := N * a).
  assert ((1 - half_ulp) * N * a == (1 - half_ulp) * y) as E1 by (unfold y; ring).
  assert ((1 + half_ulp) * N * a == (1 + half_ulp) * y) as E2 by (unfold y; ring).
  rewrite E1 in Hx1. rewrite E2 in Hx2.
  unfold half_ulp in *. split; [lra |]. split; lra.
Qed.

Lemma Qfloor_lower (r : Q) (k : Z) : inject_Z k <= r -> (k <= Qfloor r)%Z.
Proof. intros H. rewrite <- (Qfloor_Z k). apply Qfloor_resp_le. exact H. Qed.

Lemma Qfloor_upper (r : Q) (k : Z) : r < inject_Z (k + 1) -> (Qfloor r <= k)%Z.
Proof.
  intros H. assert (Qfloor r < k + 1)%Z; [| lia].
  rewrite Zlt_Qlt. eapply Qle_lt_trans; [apply Qfloor_le | exact H].
Qed.

(** A value within the relative error [4 * half_ulp] of the fraction [n / L]
    has the floor of the fraction, or one less when the fraction is an
    integer. *)
Lemma floor_of_scaled (r : Q) (n L : Z) :
  (0 < L)%Z -> (0 <= n <= 2 ^ 50)%Z ->
  (1 - 4 * half_ulp) * inject_Z n <= r * inject_Z L
    <= (1 + 4 * half_ulp) * inject_Z n ->
  (n / L - 1 <= Qfloor r <= n / L)%Z /\
  (~ (L | n)%Z -> Qfloor r = (n / L)%Z).
Proof.
  intros HL [Hn0 Hn] [Hlo Hhi].
  pose proof (Z.div_mod n L ltac:(lia)) as Hdm.
  pose proof (Z.mod_pos_bound n L HL) as [Hr0 Hr1].
  set (k := (n / L)%Z) in *. set (rm := (n mod L)%Z) in *.
  assert (inject_Z n == inject_Z L * inject_Z k + inject_Z rm) as HN.
  { rewrite <- inject_Z_mult, <- inject_Z_plus, <- Hdm. reflexivity. }
  assert (0 <= inject_Z rm) as Q0 by (rewrite <- (Zle_Qle 0); exact Hr0).
  assert (inject_Z rm + 1 <= inject_Z L) as Q1.
  { change 1 with (inject_Z 1). rewrite <- inject_Z_plus, <- Zle_Qle. lia. }
  assert (0 <= inject_Z n <= 1125899906842624) as [QN0 QN1].
  { split; [rewrite <- (Zle_Qle 0); exact Hn0 |].
    change 1125899906842624 with (inject_Z (2 ^ 50)). rewrite <- Zle_Qle. exact Hn. }
  assert (1 <= inject_Z L) as QL.
  { change 1 with (inject_Z 1). rewrite <- Zle_Qle. lia. }
  set (N := inject_Z n) in *. set (Lq := inject_Z L) in *.
  set (K := inject_Z k) in *. set (Rm := inject_Z rm) in *.
  unfold half_ulp in *.
  assert (r < inject_Z (k + 1)) as Hup.
  { rewrite inject_Z_plus. change (inject_Z 1) with 1. fold K. nra. }
  assert (inject_Z (k - 1) <= r) as Hdown.
  { replace (k - 1)%Z with (k + -1)%Z by lia.
    rewrite inject_Z_plus. change (inject_Z (-1)) with (-1). fold K.
    apply (Qmult_le_r _ _ Lq); [lra | nra]. }
  split; [split; [apply Qfloor_lower; exact Hdown | apply Qfloor_upper; exact Hup] |].
  intros Hndiv.
  assert (rm <> 0)%Z as Hrm.
  { intros E. apply Hndiv. apply Z.mod_divide; [lia | exact E]. }
  assert (1 <= Rm) as Q2.
  { change 1 with (inject_Z 1). unfold Rm. rewrite <- Zle_Qle. lia. }
  apply Z.le_antisymm; [apply Qfloor_upper; exact Hup |].
  apply Qfloor_lower. fold K. apply (Qmult_le_r _ _ Lq); [lra | nra].
Qed.
End PyFloatFacts.

(** ** The resizer *)

Lemma float_ratio_range (a : Q) (W H : Z) :
  small_int W -> small_int H ->
  ((1 - half_ulp) * inject_Z W <= a * inject_Z H <= (1 + half_ulp) * inject_Z W)%Q ->
  ((1 # 2251799813685248) <= a <= 2251799813685248)%Q.
Proof.
  intros HW HH [H1 H2]. apply small_Q in HW, HH.
  set (Wq := inject_Z W) in *. set (Hq := inject_Z H) in *. unfold half_ulp in *.
  split.
  - apply (Qmult_le_r _ _ Hq); [lra |]. nra.
  - apply (Qmult_le_r _ _ Hq); [lra |]. nra.
Qed.

Lemma Qtrunc_nonneg (r : Q) : (0 <= r)%Q -> Qtrunc r = Qfloor r.
Proof. intros H. unfold Qtrunc. rewrite (proj2 (Qle_bool_iff 0 r) H). reflexivity. Qed.

Lemma resize_landscape (width height max_dim : Z) :
  0 < height < width -> 0 < max_dim -> max_dim * width <= 2 ^ 50 ->
  exists new_height,
    resize_image_size width height max_dim = ok (max_dim, new_height) /\
    max_dim * height / width - 1 <= new_height <= max_dim * height / width /\
    (~ (width | max_dim * height) -> new_height = max_dim * height / width).
Proof.
  intros [Hh Hhw] HM Hbound.
  assert (small_int width) as Sw by (unfold small_int; nia).
  assert (small_int height) as Sh by (unfold small_int; nia).
  assert (small_int max_dim) as SM by (unfold small_int; nia).
  destruct (truediv_int_int_bounds width height Sw Sh) as (a & Ha & Hab).
  pose proof (float_ratio_range a width height Sw Sh Hab) as Har.
  destruct (truediv_int_float_bounds max_dim a SM Har) as (r & Hr & Hr0 & Hr1 & Hr2).
  exists (Qfloor r). unfold resize_image_size. rewrite Ha. cbn [rbind ok].
  rewrite (proj2 (Z.ltb_lt height width) Hhw). rewrite Hr. cbn [rbind ok int_of_float].
  rewrite (Qtrunc_nonneg r Hr0). split; [reflexivity |].
  apply floor_of_scaled; [lia | nia |].
  rewrite inject_Z_mult. destruct Hab as [Ha1 Ha2].
  apply small_Q in Sw, Sh, SM.
  set (W := inject_Z width) in *. set (H := inject_Z height) in *.
  set (M := inject_Z max_dim) in *.
  assert (r * a * H <= (1 + half_ulp) * (1 + half_ulp) * M * H)%Q as P1
    by (apply Qmult_le_compat_r; lra).
  assert ((1 - half_ulp) * (1 - half_ulp) * M * H <= r * a * H)%Q as P2
    by (apply Qmult_le_compat_r; lra).
  assert (r * ((1 - half_ulp) * W) <= r * (a * H))%Q as P3
    by (rewrite !(Qmult_comm r); apply Qmult_le_compat_r; lra).
  assert (r * (a * H) <= r * ((1 + half_ulp) * W))%Q as P4
    by (rewrite !(Qmult_comm r); apply Qmult_le_compat_r; lra).
  assert (0 <= M * H)%Q as P5 by nra.
  unfold half_ulp in *. split; nra.
Qed.

Lemma resize_portrait (width height max_dim : Z) :
  0 < width <= height -> 0 < max_dim -> max_dim * height <= 2 ^ 50 ->
  exists new_width,
    resize_image_size width height max_dim = ok (new_width, max_dim) /\
    max_dim * width / height - 1 <= new_width <= max_dim * width / height /\
    (~ (height | max_dim * width) -> new_width = max_dim * width / height).
Proof.
  intros [Hw Hwh] HM Hbound.
  assert (small_int width) as Sw by (unfold small_int; nia).
  assert (small_int height) as Sh by (unfold small_int; nia).
  assert (small_int max_dim) as SM by (unfold small_int; nia).
  destruct (truediv_int_int_bounds width height Sw Sh) as (a & Ha & Hab).
  pose proof (float_ratio_range a width height Sw Sh Hab) as Har.
  destruct (mul_int_float_bounds max_dim a SM Har) as (r & Hr & Hr0 & Hr1 & Hr2).
  exists (Qfloor r). unfold resize_image_size. rewrite Ha. cbn [rbind ok].
  rewrite (proj2 (Z.ltb_ge height width) Hwh). rewrite Hr. cbn [rbind ok int_of_float].
  rewrite (Qtrunc_nonneg r Hr0). split; [reflexivity |].
  apply floor_of_scaled; [lia | nia |].
  rewrite inject_Z_mult. destruct Hab as [Ha1 Ha2].
  apply small_Q in Sw, Sh, SM.
  set (W := inject_Z width) in *. set (H := inject_Z height) in *.
  set (M := inject_Z max_dim) in *.
  assert (r * H <= (1 + half_ulp) * (1 + half_ulp) * (M * a) * H)%Q as P1
    by (apply Qmult_le_compat_r; lra).
  assert ((1 - half_ulp) * (1 - half_ulp) * (M * a) * H <= r * H)%Q as P2
    by (apply Qmult_le_compat_r; lra).
  assert (M * ((1 - half_ulp) * W) <= M * (a * H))%Q as P3
    by (rewrite !(Qmult_comm M); apply Qmult_le_compat_r; lra).
  assert (M * (a * H) <= M * ((1 + half_ulp) * W))%Q as P4
    by (rewrite !(Qmult_comm M); apply Qmult_le_compat_r; lra).
  assert (0 <= M * W)%Q as P5 by nra.
  unfold half_ulp in *. split; nra.
Qed.

Lemma resize_image_size_truncates (width height max_dim : Z) :
  0 < width -> 0 < height -> 0 < max_dim ->
  max_dim * Z.max width height <= 2 ^ 50 ->
  exists new_width new_height,
    resize_image_size width height max_dim = ok (new_width, new_height) /\
    let long_side := Z.max width height in
    let short_side := Z.min width height in
    let new_short := Z.min new_width new_height in
    Z.max new_width new_height = max_dim /\
    (height < width -> new_width = max_dim) /\
    (width <= height -> new_height = max_dim) /\
    max_dim * short_side / long_side - 1 <= new_short
      <= max_dim * short_side / long_side /\
    (~ (long_side | max_dim * short_side) ->
     new_short = max_dim * short_side / long_side).
Proof.
  intros Hw Hh HM Hb.
  destruct (Z.lt_ge_cases height width) as [Hlt | Hge].
  - rewrite Z.max_l in Hb by lia.
    destruct (resize_landscape width height max_dim) as (nh & E & Hr & Hd); [lia .. |].
    exists max_dim, nh. split; [exact E |]. cbn zeta.
    rewrite (Z.max_l width height), (Z.min_r width height) by lia.
    assert (max_dim * height / width <= max_dim).
    { apply Z.div_le_upper_bound; [lia | nia]. }
    rewrite (Z.max_l max_dim nh), (Z.min_r max_dim nh) by lia.
    repeat split; try lia; auto.
  - rewrite Z.max_r in Hb by lia.
    destruct (resize_portrait width height max_dim) as (nw & E & Hr & Hd); [lia .. |].
    exists nw, max_dim. split; [exact E |]. cbn zeta.
    rewrite (Z.max_r width height), (Z.min_l width height) by lia.
    assert (max_dim * width / height <= max_dim).
    { apply Z.div_le_upper_bound; [lia | nia]. }
    rewrite (Z.max_r nw max_dim), (Z.min_l nw max_dim) by lia.
    repeat split; try lia; auto.
Qed.

Section Resizer.
Context (lib : Collaborators).

Lemma resize_image_large (image : Image) (max_dim : Z) (t : list event) :
  max_dim < width image \/ max_dim < height image ->
  resize_image lib image max_dim t =
  match resize_image_size (width image) (height image) max_dim with
  | inl e => (inl e, t)
  | inr new_size => (Image_resize lib image new_size, t ++ [Call_resize new_size])
  end.
Proof.
  unfold resize_image, width, height. destruct (size image) as [w h]; simpl.
  intros Hbig.
  assert ((w <=? max_dim) && (h <=? max_dim) = false) as ->.
  { apply andb_false_iff. rewrite !Z.leb_gt. tauto. }
  unfold pbind, lift, call.
  destruct (resize_image_size w h max_dim); reflexivity.
Qed.
End Resizer.

(** An image that fits is returned as it is. *)
Lemma resize_image_fits (lib : Collaborators) (image : Image) (max_dim : Z)
  (t : list event) :
  width image <= max_dim -> height image <= max_dim ->
  resize_image lib image max_dim t = (ok image, t).
Proof.
  unfold resize_image, width, height. destruct (size image) as [w h]; simpl.
  intros Hw Hh.
  rewrite (proj2 (Z.leb_le w max_dim) Hw), (proj2 (Z.leb_le h max_dim) Hh).
  reflexivity.
Qed.

(** C5. An image whose width and height are both at most [max_dim] is
    returned as it is: [resize_image] yields the very image it was given (same
    mode, size and pixels) and the resampler is not called, so that nothing
    new is allocated. *)
Theorem resize_image_identity (lib : Collaborators) (image : Image) (max_dim : Z)
  (t : list event) :
  width image <= max_dim -> height image <= max_dim ->
  resize_image lib image max_dim t = (ok image, t).
Proof.
  unfold resize_image, width, height. destruct (size image) as [w h]; simpl.
  intros Hw Hh.
  rewrite (proj2 (Z.leb_le w max_dim) Hw), (proj2 (Z.leb_le h max_dim) Hh).
  reflexivity.
Qed.

Lemma resize_image_identity_witness :
  let image := Samples.plain "RGBA" 100 100 (Pixel 30 30 30 255) in
  resize_image TestDouble.lib image MAX_IMAGE_DIM [] = (ok image, []).
Proof.
  intros image.
  apply (resize_image_identity TestDouble.lib image MAX_IMAGE_DIM []);
    vm_compute; discriminate.
Defined.

Lemma TestDouble_resampler_contract : resampler_contract TestDouble.lib.
Proof.
  intros im sz out. cbn [Image_resize TestDouble.lib]. unfold TestDouble.resize.
  destruct ((fst sz <? 1) || (snd sz <? 1)); [discriminate |].
  intros [= <-]. reflexivity.
Qed.

Lemma TestDouble_resampler_refuses_empty : resampler_refuses_empty TestDouble.lib.
Proof.
  intros im sz Hsz. cbn [Image_resize TestDouble.lib]. unfold TestDouble.resize.
  assert ((fst sz <? 1) || (snd sz <? 1) = true) as ->; [| reflexivity].
  apply orb_true_iff. rewrite !Z.ltb_lt. exact Hsz.
Qed.

(** Under the two contracts of the resampler, what [resize_image] returns
    for an image with positive sides has positive sides. *)
Lemma resize_image_result_positive (lib : Collaborators) (image out : Image)
  (max_dim : Z) (t t' : list event) :
  resampler_contract lib -> resampler_refuses_empty lib ->
  0 < width image -> 0 < height image ->
  resize_image lib image max_dim t = (ok out, t') ->
  1 <= width out /\ 1 <= height out.
Proof.
  intros Hc Hr Hw Hh Hres.
  destruct (Z.le_gt_cases (width image) max_dim) as [Hws | Hwl];
    [destruct (Z.le_gt_cases (height image) max_dim) as [Hhs | Hhl] |].
  - rewrite (resize_image_fits lib image max_dim t Hws Hhs) in Hres.
    injection Hres as <- _. lia.
  - rewrite (resize_image_large lib image max_dim t (or_intror Hhl)) in Hres.
    destruct (resize_image_size (width image) (height image) max_dim) as [e | sz];
      [discriminate |].
    injection Hres as Hout _.
    destruct (Z.lt_ge_cases (fst sz) 1) as [H1 | H1];
      [rewrite (Hr image sz (or_introl H1)) in Hout; discriminate |].
    destruct (Z.lt_ge_cases (snd sz) 1) as [H2 | H2];
      [rewrite (Hr image sz (or_intror H2)) in Hout; discriminate |].
    apply Hc in Hout. unfold width, height. rewrite Hout. split; assumption.
  - rewrite (resize_image_large lib image max_dim t (or_introl Hwl)) in Hres.
    destruct (resize_image_size (width image) (height image) max_dim) as [e | sz];
      [discriminate |].
    injection Hres as Hout _.
    destruct (Z.lt_ge_cases (fst sz) 1) as [H1 | H1];
      [rewrite (Hr image sz (or_introl H1)) in Hout; discriminate |].
    destruct (Z.lt_ge_cases (snd sz) 1) as [H2 | H2];
      [rewrite (Hr image sz (or_intror H2)) in Hout; discriminate |].
    apply Hc in Hout. unfold width, height. rewrite Hout. split; assumption.
Qed.

Lemma resize_image_size_5001_2 : resize_image_size 5001 2 MAX_IMAGE_DIM = ok (2500, 0).
Proof. vm_compute. reflexivity. Qed.

(** C10, as the specification states it, fails. For the 5001 x 2 image the
    code does compute the height [int(2500 / 2500.5)] = 0, but no bitmap
    with a side 0 comes out of the resize stage: Pillow's resampler refuses the
    size (2500, 0) with [ValueError], so [resize_image] raises; and no image
    with positive sides makes [resize_image] return an image with a side
    below 1. *)
Lemma resize_image_never_returns_empty :
  let image := Samples.plain "RGBA" 5001 2 (Pixel 30 30 30 255) in
  resize_image_size 5001 2 MAX_IMAGE_DIM = ok (2500, 0) /\
  resize_image TestDouble.lib image MAX_IMAGE_DIM [] =
  (raise (ValueError "height and width must be > 0"), [Call_resize (2500, 0)]) /\
  ~ exists (image : Image) (out : Image) (t t' : list event),
      0 < width image /\ 0 < height image /\
      resize_image TestDouble.lib image MAX_IMAGE_DIM t = (ok out, t') /\
      (width out < 1 \/ height out < 1).
Proof.
  intros image. split; [exact resize_image_size_5001_2 |]. split.
  - rewrite resize_image_large by (left; reflexivity).
    change (width image) with 5001. change (height image) with 2.
    rewrite resize_image_size_5001_2. reflexivity.
  - intros (im & out & t & t' & Hw & Hh & Hres & Hbad).
    destruct (resize_image_result_positive TestDouble.lib im out MAX_IMAGE_DIM t t'
                TestDouble_resampler_contract TestDouble_resampler_refuses_empty
                Hw Hh Hres).
    lia.
Qed.

(** C10, amended. For some valid input whose aspect ratio exceeds
    [MAX_IMAGE_DIM] (5001 x 2), [resize_image] computes a shorter side of 0 by
    truncation and asks the resampler for the size (2500, 0); the resampler
    refuses a size with a side below 1, so [resize_image] raises [ValueError]
    instead of returning a bitmap. The positive-size invariant is not
    violated: whenever [resize_image] returns for an image with positive
    sides, both sides of the result are at least 1. *)
Theorem resize_image_zero_height_refused (lib : Collaborators) :
  resampler_contract lib -> resampler_refuses_empty lib ->
  (exists image : Image,
     0 < width image /\ 0 < height image /\ pixels_ok image /\
     resize_image_size (width image) (height image) MAX_IMAGE_DIM = ok (2500, 0) /\
     forall t : list event,
       resize_image lib image MAX_IMAGE_DIM t =
       (raise (ValueError "height and width must be > 0"),
        t ++ [Call_resize (2500, 0)])) /\
  (forall (image out : Image) (max_dim : Z) (t t' : list event),
     0 < width image -> 0 < height image ->
     resize_image lib image max_dim t = (ok out, t') ->
     1 <= width out /\ 1 <= height out).
Proof.
  intros Hc Hr. split.
  - exists (Samples.plain "RGBA" 5001 2 (Pixel 30 30 30 255)).
    split; [reflexivity |]. split; [reflexivity |]. split; [| split].
    + intros x y _ _. unfold pixel_ok, channel_ok; simpl. lia.
    + exact resize_image_size_5001_2.
    + intros t. rewrite resize_image_large by (left; reflexivity).
      change (width (Samples.plain "RGBA" 5001 2 (Pixel 30 30 30 255))) with 5001.
      change (height (Samples.plain "RGBA" 5001 2 (Pixel 30 30 30 255))) with 2.
      rewrite resize_image_size_5001_2. unfold ok; cbv beta iota.
      rewrite (Hr _ (2500, 0)) by (right; reflexivity).
      reflexivity.
  - intros image out max_dim t t' Hw Hh Hres.
    exact (resize_image_result_positive lib image out max_dim t t' Hc Hr Hw Hh Hres).
Qed.

Lemma resize_image_zero_height_refused_witness :
  (exists image : Image,
     0 < width image /\ 0 < height image /\ pixels_ok image /\
     resize_image_size (width image) (height image) MAX_IMAGE_DIM = ok (2500, 0) /\
     forall t : list event,
       resize_image TestDouble.lib image MAX_IMAGE_DIM t =
       (raise (ValueError "height and width must be > 0"),
        t ++ [Call_resize (2500, 0)])) /\
  (forall (image out : Image) (max_dim : Z) (t t' : list event),
     0 < width image -> 0 < height image ->
     resize_image TestDouble.lib image max_dim t = (ok out, t') ->
     1 <= width out /\ 1 <= height out).
Proof.
  apply (resize_image_zero_height_refused TestDouble.lib).
  - exact TestDouble_resampler_contract.
  - exact TestDouble_resampler_refuses_empty.
Defined.

(** C4, as the specification states it, fails: for a 3000 x 2000 image the
    code asks for 2500 x 1666, truncating 1666.67, where rounding gives
    1667. *)
Lemma resize_image_size_not_rounded :
  resize_image_size 3000 2000 MAX_IMAGE_DIM = ok (2500, 1666) /\
  Spec.resize_size 3000 2000 MAX_IMAGE_DIM = ok (2500, 1667) /\
  resize_image_size 3000 2000 MAX_IMAGE_DIM <> Spec.resize_size 3000 2000 MAX_IMAGE_DIM.
Proof. repeat split; vm_compute; try reflexivity. discriminate. Qed.

(** Truncation can even fall one below the exact proportion: for 2525 x 1717
    the proportional height is exactly 1700, the quotient [2500 / (2525 /
    1717)] evaluates to a double just below it, and the code asks for 1699. *)
Lemma resize_image_size_below_exact :
  resize_image_size 2525 1717 MAX_IMAGE_DIM = ok (2500, 1699) /\
  2500 * 1717 = 1700 * 2525.
Proof. split; vm_compute; reflexivity. Qed.

(** C4, amended. For an image with positive sides whose longer side exceeds
    [max_dim] (with [max_dim * longer side <= 2 ^ 50], which covers every
    size Pillow can hold for [MAX_IMAGE_DIM]), [resize_image] asks the
    resampler for a size whose longer side is [max_dim] exactly and whose
    shorter side is the proportional value [max_dim * short / long]
    truncated, not rounded: the floor of that quotient, or, when the
    quotient is an integer, that integer or one less. What the resampler
    returns for that size is what [resize_image] returns. *)
Theorem resize_image_truncates (lib : Collaborators) (image : Image) (max_dim : Z)
  (t : list event) :
  0 < width image -> 0 < height image -> 0 < max_dim ->
  max_dim < width image \/ max_dim < height image ->
  max_dim * Z.max (width image) (height image) <= 2 ^ 50 ->
  exists new_width new_height,
    resize_image lib image max_dim t =
    (Image_resize lib image (new_width, new_height),
     t ++ [Call_resize (new_width, new_height)]) /\
    let long_side := Z.max (width image) (height image) in
    let short_side := Z.min (width image) (height image) in
    let new_short := Z.min new_width new_height in
    Z.max new_width new_height = max_dim /\
    (height image < width image -> new_width = max_dim) /\
    (width image <= height image -> new_height = max_dim) /\
    max_dim * short_side / long_side - 1 <= new_short
      <= max_dim * short_side / long_side /\
    (~ (long_side | max_dim * short_side) ->
     new_short = max_dim * short_side / long_side).
Proof.
  intros Hw Hh HM Hbig Hbound.
  destruct (resize_image_size_truncates (width image) (height image) max_dim
              Hw Hh HM Hbound) as (nw & nh & Hsize & Hprops).
  exists nw, nh. split; [| exact Hprops].
  rewrite (resize_image_large lib image max_dim t Hbig), Hsize. reflexivity.
Qed.

Lemma resize_image_truncates_witness :
  let image := Samples.plain "RGBA" 3000 2000 (Pixel 30 30 30 255) in
  exists new_width new_height,
    resize_image TestDouble.lib image MAX_IMAGE_DIM [] =
    (Image_resize TestDouble.lib image (new_width, new_height),
     [] ++ [Call_resize (new_width, new_height)]) /\
    let long_side := Z.max (width image) (height image) in
    let short_side := Z.min (width image) (height image) in
    let new_short := Z.min new_width new_height in
    Z.max new_width new_height = MAX_IMAGE_DIM /\
    (height image < width image -> new_width = MAX_IMAGE_DIM) /\
    (width image <= height image -> new_height = MAX_IMAGE_DIM) /\
    MAX_IMAGE_DIM * short_side / long_side - 1 <= new_short
      <= MAX_IMAGE_DIM * short_side / long_side /\
    (~ (long_side | MAX_IMAGE_DIM * short_side) ->
     new_short = MAX_IMAGE_DIM * short_side / long_side).
Proof.
  intros image.
  apply (resize_image_truncates TestDouble.lib image MAX_IMAGE_DIM []).
  - reflexivity.
  - reflexivity.
  - reflexivity.
  - left. reflexivity.
  - vm_compute. discriminate.
Defined.

(** ** The compositor *)

Lemma DIV255_nearest (a : Z) :
  0 <= a <= 255 * 255 -> -127 <= 255 * DIV255 a - a <= 127.
Proof.
  intros Ha. unfold DIV255. rewrite !Z.shiftr_div_pow2 by lia.
  change (2 ^ 8) with 256. Z.div_mod_to_equations. lia.
Qed.

Lemma BLEND_nearest (mask in1 in2 : Z) :
  channel_ok mask -> channel_ok in1 -> channel_ok in2 ->
  -127 <= 255 * BLEND mask in1 in2 - (in1 * (255 - mask) + in2 * mask) <= 127.
Proof.
  unfold channel_ok, BLEND. intros Hm H1 H2. apply DIV255_nearest. nia.
Qed.

(** An integer within 127/255 of the exact blend is the nearest one. *)
Lemma nearest_alpha_blend (v fg a bg : Z) :
  -127 <= 255 * v - (bg * (255 - a) + fg * a) <= 127 ->
  (Qabs (inject_Z v - Spec.alpha_blend fg a bg) < 1 # 2)%Q.
Proof.
  intros [H1 H2]. unfold Spec.alpha_blend.
  rewrite Zle_Qle in H1, H2.
  rewrite <- !Z.add_opp_r in H1, H2.
  push_inject_Z H1. push_inject_Z H2.
  change (inject_Z 255) with 255%Q in *. change (inject_Z 127) with 127%Q in *.
  change (inject_Z (-127)) with (-127)%Q in *.
  unfold Qdiv. change (/ 255)%Q with (1 # 255)%Q.
  apply Qabs_case; intros _; lra.
Qed.

Section Compositor.
Context (lib : Collaborators).

Lemma composite_transparent (o : SessionOptions) (fg : Image) (t : list event) :
  bg_color o = "transparent" -> composite lib o fg t = (ok fg, t).
Proof. unfold composite. intros ->. reflexivity. Qed.

Lemma composite_color (o : SessionOptions) (fg : Image) (bg : pixel)
  (t : list event) :
  bg_color o <> "transparent" ->
  getcolor lib (bg_color o) = ok bg ->
  mode fg = "RGBA" -> 0 <= width fg -> 0 <= height fg ->
  composite lib o fg t =
  (ok (over_color bg fg), t ++ [Call_getcolor (bg_color o)] ++ [Call_convert "RGB"]).
Proof.
  intros Hc Hbg Hm Hw Hh. unfold composite.
  destruct (String.eqb_spec (bg_color o) "transparent") as [E | _]; [contradiction |].
  cbn [negb]. unfold Image_new, Image_paste, Image_convert, pbind, call, lift, pret.
  rewrite Hbg. unfold Pillow.new. cbn [fst snd ok].
  unfold width, height in Hw, Hh.
  rewrite (proj2 (Z.ltb_ge _ _) Hw), (proj2 (Z.ltb_ge _ _) Hh). cbn [orb mode].
  rewrite Hm. cbn [String.eqb Ascii.eqb Bool.eqb andb].
  unfold paste_RGBA. rewrite bool_decide_eq_true_2 by reflexivity. cbn [negb ok mode].
  cbn [String.eqb Ascii.eqb Bool.eqb andb].
  rewrite <- app_assoc. reflexivity.
Qed.
End Compositor.

(** C6. With the background set to transparent the compositor returns the
    foreground image itself: an RGBA foreground stays RGBA, and every pixel,
    its alpha included, is the one of the foreground. *)
Theorem composite_transparent_identity (lib : Collaborators) (o : SessionOptions)
  (fg : Image) (t : list event) :
  bg_color o = "transparent" ->
  exists out : Image,
    composite lib o fg t = (ok out, t) /\ out = fg /\
    (mode fg = "RGBA" -> mode out = "RGBA") /\
    forall x y, A (getpixel out x y) = A (getpixel fg x y).
Proof.
  intros Hc. exists fg. rewrite composite_transparent by assumption.
  repeat split; auto.
Qed.

Lemma composite_transparent_identity_witness :
  let fg := Samples.plain "RGBA" 2 2 (Pixel 10 20 30 128) in
  exists out : Image,
    composite TestDouble.lib
      (Samples.with_bg_color "transparent" Samples.default_options) fg [] = (ok out, []) /\
    out = fg /\ (mode fg = "RGBA" -> mode out = "RGBA") /\
    forall x y, A (getpixel out x y) = A (getpixel fg x y).
Proof.
  intros fg.
  apply (composite_transparent_identity TestDouble.lib
           (Samples.with_bg_color "transparent" Samples.default_options) fg []).
  reflexivity.
Defined.

(** C7. Over a background colour (any colour string other than
    ["transparent"] that Pillow parses) the compositor returns an RGB image of
    the size of the RGBA foreground in which every channel of every pixel is
    the integer nearest to the blend [fg * (a/255) + bg * (1 - a/255)], and
    whose fourth byte is 255 everywhere: no pixel is less than opaque. *)
Theorem composite_color_blend (lib : Collaborators) (o : SessionOptions)
  (fg : Image) (bg : pixel) (t : list event) :
  bg_color o <> "transparent" ->
  getcolor lib (bg_color o) = ok bg -> pixel_ok bg ->
  mode fg = "RGBA" -> 0 <= width fg -> 0 <= height fg -> pixels_ok fg ->
  exists (out : Image) (t' : list event),
    composite lib o fg t = (ok out, t') /\
    mode out = "RGB" /\ size out = size fg /\
    forall x y, 0 <= x < width fg -> 0 <= y < height fg ->
      let p := getpixel fg x y in
      let q := getpixel out x y in
      (Qabs (inject_Z (R q) - Spec.alpha_blend (R p) (A p) (R bg)) < 1 # 2)%Q /\
      (Qabs (inject_Z (G q) - Spec.alpha_blend (G p) (A p) (G bg)) < 1 # 2)%Q /\
      (Qabs (inject_Z (B q) - Spec.alpha_blend (B p) (A p) (B bg)) < 1 # 2)%Q /\
      A q = 255.
Proof.
  intros Hc Hbg Hbgok Hm Hw Hh Hfg.
  eexists; eexists. split; [apply (composite_color lib o fg bg t); assumption |].
  split; [reflexivity |]. split; [reflexivity |].
  intros x y Hx Hy p q. subst q. cbn [over_color getpixel].
  assert ((0 <=? x) && (x <? 0 + width fg) && (0 <=? y) && (y <? 0 + height fg) = true)
    as ->.
  { rewrite !andb_true_iff, !Z.leb_le, !Z.ltb_lt. lia. }
  rewrite !Z.sub_0_r. fold p. cbn [blend_pixel R G B A].
  destruct (Hfg x y Hx Hy) as (Hr & Hg & Hb & Ha). fold p in Hr, Hg, Hb, Ha.
  destruct Hbgok as (Br & Bg & Bb & _).
  repeat split; try apply nearest_alpha_blend; try apply BLEND_nearest; assumption.
Qed.

Lemma composite_color_blend_witness :
  let fg := Samples.plain "RGBA" 2 2 (Pixel 200 50 50 128) in
  exists (out : Image) (t' : list event),
    composite TestDouble.lib Samples.default_options fg [] = (ok out, t') /\
    mode out = "RGB" /\ size out = size fg /\
    forall x y, 0 <= x < width fg -> 0 <= y < height fg ->
      let p := getpixel fg x y in
      let q := getpixel out x y in
      (Qabs (inject_Z (R q) - Spec.alpha_blend (R p) (A p) 30) < 1 # 2)%Q /\
      (Qabs (inject_Z (G q) - Spec.alpha_blend (G p) (A p) 30) < 1 # 2)%Q /\
      (Qabs (inject_Z (B q) - Spec.alpha_blend (B p) (A p) 30) < 1 # 2)%Q /\
      A q = 255.
Proof.
  intros fg.
  apply (composite_color_blend TestDouble.lib Samples.default_options fg
           (Pixel 30 30 30 255) []).
  - discriminate.
  - reflexivity.
  - unfold pixel_ok, channel_ok; simpl; lia.
  - reflexivity.
  - vm_compute; discriminate.
  - vm_compute; discriminate.
  - intros x y _ _. unfold pixel_ok, channel_ok; simpl; lia.
Defined.

(** C3 on the code: the colour ["#00000000"], whose alpha is 0, is not the
    string ["transparent"], so a foreground is composited over it like over
    any colour. For a one-pixel foreground (10, 20, 30, 0) the result is an
    opaque black RGB image, while the transparent setting returns the RGBA
    foreground itself. The sidebar's hint ("Set transparent by picking the
    color with 0 alpha") promises the latter. *)
Theorem composite_alpha0_color_is_opaque :
  let fg := Samples.plain "RGBA" 1 1 (Pixel 10 20 30 0) in
  let alpha0 := Samples.with_bg_color "#00000000" Samples.default_options in
  let transparent := Samples.with_bg_color "transparent" Samples.default_options in
  getcolor TestDouble.lib (bg_color alpha0) = ok (Pixel 0 0 0 0) /\
  (exists (out : Image) (t' : list event),
     composite TestDouble.lib alpha0 fg [] = (ok out, t') /\
     mode out = "RGB" /\ getpixel out 0 0 = Pixel 0 0 0 255) /\
  composite TestDouble.lib transparent fg [] = (ok fg, []) /\
  mode fg = "RGBA" /\ getpixel fg 0 0 = Pixel 10 20 30 0.
Proof.
  intros fg alpha0 transparent. split; [reflexivity |]. split.
  - eexists; eexists. split; [reflexivity |]. split; reflexivity.
  - repeat split; reflexivity.
Qed.

(** ** The enhancer *)

(** *** Rounding to binary32 and the blend of [Blend.c] *)

Section CFloatFacts.
Local Open Scope Q_scope.

Lemma CFloat_round_pos_error (x : Q) :
  0 < x -> x < 1024 ->
  x - (1 # 32768) <= CFloat.round_pos x <= x + (1 # 32768).
Proof.
  intros Hx Hhi.
  destruct (ilog2_spec x Hx) as [Hl Hu].
  assert (ilog2 x < 10)%Z as Hlog.
  { apply (Qpower_lt_compat_l_inv 2); [| reflexivity].
    eapply Qle_lt_trans; [exact Hl |].
    assert (2 ^ 10 == 1024) as -> by reflexivity. exact Hhi. }
  unfold CFloat.round_pos. set (e := CFloat.ulp_exp x).
  assert (e <= -14)%Z as He by (unfold e, CFloat.ulp_exp, CFloat.prec, CFloat.emin; lia).
  assert (2 ^ e <= 1 # 16384) as HP1.
  { assert (2 ^ (-14) == 1 # 16384) as <- by reflexivity.
    apply Qpower_le_compat_l; [exact He | discriminate]. }
  pose proof (Qpow2_pos e) as HP.
  pose proof (rne_spec (x / 2 ^ e)) as [Hr1 Hr2].
  set (r := inject_Z (rne (x / 2 ^ e))) in *.
  assert (x == x / 2 ^ e * 2 ^ e) as Hxy.
  { field. intros H0. rewrite H0 in HP. apply (Qlt_irrefl 0 HP). }
  set (y := x / 2 ^ e) in *. set (P := 2 ^ e) in *.
  split; nra.
Qed.

(** Rounding to [float] moves a value below 1024 in magnitude by at most
    [2 ^ -15]. *)
Lemma CFloat_round_error (x : Q) :
  -1024 < x -> x < 1024 ->
  x - (1 # 32768) <= CFloat.round x <= x + (1 # 32768).
Proof.
  intros Hlo Hhi. unfold CFloat.round.
  destruct (Qcompare x 0) eqn:E.
  - apply Qeq_alt in E. lra.
  - apply Qlt_alt in E.
    destruct (CFloat_round_pos_error (- x)) as [H1 H2]; lra.
  - apply Qgt_alt in E.
    destruct (CFloat_round_pos_error x) as [H1 H2]; lra.
Qed.

Lemma Qle_inject (a b : Z) : (a <= b)%Z -> inject_Z a <= inject_Z b.
Proof. intros H. rewrite <- Zle_Qle. exact H. Qed.

Lemma alpha_12_value : alpha_12 == 5033165 # 4194304.
Proof. vm_compute. reflexivity. Qed.
End CFloatFacts.

Section ContrastFacts.
Local Open Scope Z_scope.

(** Blending a byte with itself gives the byte: checked on the 256 bytes. *)
Lemma blend_channel_same (fused : bool) (g : Z) :
  channel_ok g -> ImageEnhance.blend_channel fused alpha_12 g g = g.
Proof.
  intros [H0 H1].
  assert (forall f,
            forallb (fun n => ImageEnhance.blend_channel f alpha_12 (Z.of_nat n) (Z.of_nat n)
                              =? Z.of_nat n) (seq 0 256) = true) as H
    by (intros [|]; vm_compute; reflexivity).
  specialize (H fused).
  rewrite forallb_forall in H. specialize (H (Z.to_nat g)).
  rewrite Z2Nat.id in H by lia. apply Z.eqb_eq, H. apply in_seq. lia.
Qed.

Lemma clamp_low (x : Q) : (x <= 0)%Q -> Spec.clamp x = 0%Q.
Proof.
  intros H. unfold Spec.clamp. rewrite (proj2 (Qle_bool_iff x 0) H). reflexivity.
Qed.

Lemma clamp_high (x : Q) : (255 <= x)%Q -> Spec.clamp x = 255%Q.
Proof.
  intros H. unfold Spec.clamp.
  destruct (Qle_bool x 0) eqn:E; [apply Qle_bool_iff in E; lra |].
  rewrite (proj2 (Qle_bool_iff 255 x) H). reflexivity.
Qed.

Lemma clamp_mid (x : Q) : (0 < x)%Q -> (x < 255)%Q -> Spec.clamp x = x.
Proof.
  intros H1 H2. unfold Spec.clamp.
  destruct (Qle_bool x 0) eqn:E; [apply Qle_bool_iff in E; lra |].
  destruct (Qle_bool 255 x) eqn:E2; [apply Qle_bool_iff in E2; lra |].
  reflexivity.
Qed.

(** The blend of [Blend.c] with the float 1.2 follows the contrast rule,
    however the compiler evaluates it. *)
Lemma blend_channel_contrast (fused : bool) (g v : Z) :
  channel_ok g -> channel_ok v ->
  contrast_of g v (ImageEnhance.blend_channel fused alpha_12 g v).
Proof.
  intros [Hg0 Hg1] [Hv0 Hv1].
  unfold ImageEnhance.blend_channel. cbv zeta.
  assert (Qle_bool 0 alpha_12 && Qle_bool alpha_12 1 = false) as ->
    by (vm_compute; reflexivity).
  set (s := ImageEnhance.blend_value fused alpha_12 g v).
  set (d := inject_Z (v - g)).
  assert (-255 <= d <= 255)%Q as [Hd0 Hd1].
  { unfold d. split.
    - change (-255)%Q with (inject_Z (-255)). rewrite <- Zle_Qle. lia.
    - change 255%Q with (inject_Z 255). rewrite <- Zle_Qle. lia. }
  assert (0 <= inject_Z g <= 255)%Q as [HG0 HG1].
  { split.
    - rewrite <- (Zle_Qle 0). lia.
    - change 255%Q with (inject_Z 255). rewrite <- Zle_Qle. lia. }
  pose proof alpha_12_value as Ha.
  assert (alpha_12 * d == (5033165 # 4194304) * d)%Q as Had by (rewrite Ha; reflexivity).
  set (N := 5 * g + 6 * (v - g)).
  set (x := (inject_Z g + (12 # 10) * inject_Z (v - g))%Q).
  assert (5 * x == inject_Z N)%Q as HN.
  { unfold x, N. rewrite inject_Z_plus, !inject_Z_mult. fold d.
    change (inject_Z 5) with 5%Q. change (inject_Z 6) with 6%Q. ring. }
  assert (x - (1 # 10) < s /\ s < x + (1 # 10))%Q as [Hx1 Hx2].
  { unfold s, ImageEnhance.blend_value, CFloat.fma, CFloat.add, CFloat.mul, x.
    cbv zeta. fold d. destruct fused.
    - destruct (CFloat_round_error (alpha_12 * d + inject_Z g)) as [Hs1 Hs2];
        [lra | lra |].
      split; lra.
    - destruct (CFloat_round_error (alpha_12 * d)) as [Hp1 Hp2]; [lra | lra |].
      set (p := CFloat.round (alpha_12 * d)) in *.
      destruct (CFloat_round_error (inject_Z g + p)) as [Hs1 Hs2]; [lra | lra |].
      split; lra. }
  clearbody s.
  unfold contrast_of, Spec.contrast. fold x.
  assert ((5 | v - g) <-> (5 | N)) as Hdiv.
  { unfold N. split; intros [k Hk].
    - exists (g + 6 * k). lia.
    - exists (k - g - (v - g)). lia. }
  destruct (Qle_bool s 0) eqn:E0.
  { apply Qle_bool_iff in E0.
    assert (N <= 0) as HN0.
    { assert (N < 1); [| lia]. rewrite Zlt_Qlt. change (inject_Z 1) with 1%Q. lra. }
    assert (x <= 0)%Q as Hx0.
    { assert (inject_Z N <= 0)%Q by exact (Qle_inject N 0 HN0). lra. }
    rewrite (clamp_low x Hx0). change (inject_Z 0) with 0%Q.
    split; [lra |]. split; [reflexivity | unfold channel_ok; lia]. }
  assert (0 < s)%Q as Hs0.
  { apply Qnot_le_lt. intros H. apply Qle_bool_iff in H. congruence. }
  destruct (Qle_bool 255 s) eqn:E1.
  { apply Qle_bool_iff in E1.
    assert (1275 <= N) as HN1.
    { assert (1274 < N); [| lia]. rewrite Zlt_Qlt.
      change (inject_Z 1274) with 1274%Q. lra. }
    assert (255 <= x)%Q as Hx255.
    { assert (1275 <= inject_Z N)%Q by exact (Qle_inject 1275 N HN1). lra. }
    rewrite (clamp_high x Hx255). change (inject_Z 255) with 255%Q.
    split; [lra |]. split; [reflexivity | unfold channel_ok; lia]. }
  assert (s < 255)%Q as Hs255.
  { apply Qnot_le_lt. intros H. apply Qle_bool_iff in H. congruence. }
  rewrite (Qtrunc_nonneg s) by lra.
  pose proof (Qfloor_le s) as HF1. pose proof (Qlt_floor s) as HF2.
  rewrite inject_Z_plus in HF2. change (inject_Z 1) with 1%Q in HF2.
  set (F := Qfloor s) in *.
  assert (5 * F <= N) as HFN.
  { assert (5 * F < N + 1); [| lia]. rewrite Zlt_Qlt.
    rewrite inject_Z_plus, inject_Z_mult. change (inject_Z 5) with 5%Q.
    change (inject_Z 1) with 1%Q. lra. }
  assert (N <= 5 * F + 5) as HNF.
  { assert (N < 5 * F + 6); [| lia]. rewrite Zlt_Qlt.
    rewrite inject_Z_plus, inject_Z_mult. change (inject_Z 5) with 5%Q.
    change (inject_Z 6) with 6%Q. lra. }
  assert (0 <= F) as HF0.
  { apply Qfloor_lower. change (inject_Z 0) with 0%Q. lra. }
  assert (F <= 254) as HF254.
  { apply Qfloor_upper. change (inject_Z (254 + 1)) with 255%Q. exact Hs255. }
  assert (5 * inject_Z F <= inject_Z N <= 5 * inject_Z F + 5)%Q as [Q1 Q2].
  { split.
    - change 5%Q with (inject_Z 5). rewrite <- inject_Z_mult, <- Zle_Qle. exact HFN.
    - change 5%Q with (inject_Z 5). rewrite <- inject_Z_mult, <- inject_Z_plus, <- Zle_Qle.
      exact HNF. }
  assert (channel_ok F) as HFok by (unfold channel_ok; lia).
  destruct (Z.le_gt_cases N 0) as [HN0 | HN0].
  { assert (N = 0) as EN by lia.
    assert (x <= 0)%Q as Hx0 by (rewrite EN in HN; change (inject_Z 0) with 0%Q in HN; lra).
    rewrite (clamp_low x Hx0).
    assert (F = 0) as -> by lia. change (inject_Z 0) with 0%Q.
    split; [lra |]. split; [reflexivity | exact HFok]. }
  destruct (Z.le_gt_cases 1275 N) as [HN1 | HN1].
  { assert (N = 1275) as EN by lia.
    assert (255 <= x)%Q as Hx255
      by (rewrite EN in HN; change (inject_Z 1275) with 1275%Q in HN; lra).
    rewrite (clamp_high x Hx255).
    assert (F = 254) as -> by lia. change (inject_Z 254) with 254%Q.
    split; [lra |]. split; [| exact HFok].
    intros Hnd. exfalso. apply Hnd. apply Hdiv. exists 255. lia. }
  assert (0 < x /\ x < 255)%Q as [Hx0 Hx255].
  { assert (1 <= inject_Z N <= 1274)%Q as [? ?].
    { split.
      - change 1%Q with (inject_Z 1). rewrite <- Zle_Qle. lia.
      - change 1274%Q with (inject_Z 1274). rewrite <- Zle_Qle. lia. }
    split; lra. }
  rewrite (clamp_mid x Hx0 Hx255).
  split; [lra |]. split; [| exact HFok].
  intros Hnd.
  assert (N <> 5 * F + 5) as Hne.
  { intros EN. apply Hnd. apply Hdiv. exists (F + 1). lia. }
  apply Z.le_antisymm.
  - apply Qfloor_lower. lra.
  - apply Qfloor_upper. rewrite inject_Z_plus. change (inject_Z 1) with 1%Q.
    assert (inject_Z N < 5 * inject_Z F + 5)%Q; [| lra].
    change 5%Q with (inject_Z 5). rewrite <- inject_Z_mult, <- inject_Z_plus, <- Zlt_Qlt.
    lia.
Qed.
End ContrastFacts.

(** *** The mean grey *)

Section MeanFacts.
Local Open Scope Q_scope.

(** As [floor_of_scaled], for a relative error of [8 * half_ulp]. *)
Lemma floor_of_scaled_8 (r : Q) (n L : Z) :
  (0 < L)%Z -> (0 <= n <= 2 ^ 49)%Z ->
  (1 - 8 * half_ulp) * inject_Z n <= r * inject_Z L
    <= (1 + 8 * half_ulp) * inject_Z n ->
  (n / L - 1 <= Qfloor r <= n / L)%Z /\
  (~ (L | n)%Z -> Qfloor r = (n / L)%Z).
Proof.
  intros HL [Hn0 Hn] [Hlo Hhi].
  pose proof (Z.div_mod n L ltac:(lia)) as Hdm.
  pose proof (Z.mod_pos_bound n L HL) as [Hr0 Hr1].
  set (k := (n / L)%Z) in *. set (rm := (n mod L)%Z) in *.
  assert (inject_Z n == inject_Z L * inject_Z k + inject_Z rm) as HN.
  { rewrite <- inject_Z_mult, <- inject_Z_plus, <- Hdm. reflexivity. }
  assert (0 <= inject_Z rm) as Q0 by (rewrite <- (Zle_Qle 0); exact Hr0).
  assert (inject_Z rm + 1 <= inject_Z L) as Q1.
  { change 1 with (inject_Z 1). rewrite <- inject_Z_plus, <- Zle_Qle. lia. }
  assert (0 <= inject_Z n <= 562949953421312) as [QN0 QN1].
  { split; [rewrite <- (Zle_Qle 0); exact Hn0 |].
    change 562949953421312 with (inject_Z (2 ^ 49)). rewrite <- Zle_Qle. exact Hn. }
  assert (1 <= inject_Z L) as QL.
  { change 1 with (inject_Z 1). rewrite <- Zle_Qle. lia. }
  set (N := inject_Z n) in *. set (Lq := inject_Z L) in *.
  set (K := inject_Z k) in *. set (Rm := inject_Z rm) in *.
  unfold half_ulp in *.
  assert (r < inject_Z (k + 1)) as Hup.
  { rewrite inject_Z_plus. change (inject_Z 1) with 1. fold K. nra. }
  assert (inject_Z (k - 1) <= r) as Hdown.
  { replace (k - 1)%Z with (k + -1)%Z by lia.
    rewrite inject_Z_plus. change (inject_Z (-1)) with (-1). fold K.
    apply (Qmult_le_r _ _ Lq); [lra | nra]. }
  split; [split; [apply Qfloor_lower; exact Hdown | apply Qfloor_upper; exact Hup] |].
  intros Hndiv.
  assert (rm <> 0)%Z as Hrm.
  { intros E. apply Hndiv. apply Z.mod_divide; [lia | exact E]. }
  assert (1 <= Rm) as Q2.
  { change 1 with (inject_Z 1). unfold Rm. rewrite <- Zle_Qle. lia. }
  apply Z.le_antisymm; [apply Qfloor_upper; exact Hup |].
  apply Qfloor_lower. fold K. apply (Qmult_le_r _ _ Lq); [lra | nra].
Qed.

Lemma round_zero (x : Q) : x == 0 -> round x = Finite 0.
Proof.
  intros H. unfold round, round_fin. rewrite (proj1 (Qeq_alt x 0) H).
  vm_compute. reflexivity.
Qed.
End MeanFacts.

Section ContrastImage.
Local Open Scope Z_scope.

Lemma L_range (p : pixel) : pixel_ok p -> 0 <= ImageEnhance.L p <= 255.
Proof.
  unfold pixel_ok, channel_ok, ImageEnhance.L. intros (HR & HG & HB & _).
  rewrite Z.shiftr_div_pow2 by lia. change (2 ^ 16) with 65536.
  split.
  - apply Z.div_pos; lia.
  - assert ((R p * 19595 + G p * 38470 + B p * 7471 + 32768) / 65536 < 256); [| lia].
    apply Z.div_lt_upper_bound; lia.
Qed.

Lemma sum_L_range (im : Image) (n : nat) :
  pixels_ok im -> 0 < width im -> Z.of_nat n <= width im * height im ->
  0 <= ImageEnhance.sum_L im n <= 255 * Z.of_nat n.
Proof.
  intros Hok Hw. induction n as [| k IH]; intros Hn.
  - cbn. lia.
  - cbn [ImageEnhance.sum_L].
    assert (0 <= Z.of_nat k mod width im < width im) as Hx
      by (apply Z.mod_pos_bound; exact Hw).
    assert (0 <= Z.of_nat k / width im < height im) as Hy.
    { split; [apply Z.div_pos; lia |]. apply Z.div_lt_upper_bound; [exact Hw | lia]. }
    pose proof (L_range _ (Hok _ _ Hx Hy)). specialize (IH ltac:(lia)). lia.
Qed.

(** The mean grey of an image is the mean of the grey levels of its pixels,
    to the nearest level. *)
Lemma mean_spec (im : Image) :
  pixels_ok im -> 0 < width im -> 0 < height im -> width im * height im <= 2 ^ 40 ->
  exists m,
    ImageEnhance.mean im = ok m /\ 0 <= m <= 255 /\
    let n := width im * height im in
    let S := ImageEnhance.sum_L im (Z.to_nat n) in
    2 * n * m - n <= 2 * S <= 2 * n * m + n.
Proof.
  intros Hok Hw Hh Hsize. cbn zeta. unfold ImageEnhance.mean.
  set (n := width im * height im) in *.
  assert (0 < n) as Hn by (unfold n; nia).
  pose proof (sum_L_range im (Z.to_nat n) Hok Hw ltac:(lia)) as HS.
  rewrite Z2Nat.id in HS by lia.
  set (S := ImageEnhance.sum_L im (Z.to_nat n)) in *.
  assert (small_int n) as Sn by (unfold small_int; lia).
  destruct (of_int_bounds n Sn) as (c & Hc & Hc1 & Hc2).
  pose proof (small_Q n Sn) as [HNq1 HNq2].
  assert (Qeq_bool c 0 = false) as Hc0.
  { destruct (Qeq_bool c 0) eqn:E; [| reflexivity].
    apply Qeq_bool_eq in E. unfold half_ulp in *. lra. }
  destruct (Z.eq_dec S 0) as [ES | ES].
  - rewrite ES. assert (of_int 0 = ok 0%Q) as -> by (vm_compute; reflexivity).
    rewrite Hc. cbn [rbind ok]. rewrite Hc0.
    rewrite (round_zero (0 / c)) by (unfold Qdiv; ring).
    exists 0. split; [vm_compute; reflexivity |]. lia.
  - assert (small_int S) as SS by (unfold small_int; lia).
    destruct (of_int_bounds S SS) as (s & Hs & Hs1 & Hs2).
    pose proof (small_Q S SS) as [HSq1 HSq2].
    assert (inject_Z S <= 255 * inject_Z n)%Q as HSn.
    { change 255%Q with (inject_Z 255). rewrite <- inject_Z_mult, <- Zle_Qle. lia. }
    rewrite Hs, Hc. cbn [rbind ok]. rewrite Hc0.
    set (Sq := inject_Z S) in *. set (Nq := inject_Z n) in *.
    assert (Nq <= 1099511627776)%Q as HNq3.
    { change 1099511627776%Q with (inject_Z (2 ^ 40)). unfold Nq.
      rewrite <- Zle_Qle. exact Hsize. }
    assert (s / c * c == s)%Q as Hdiv by (field; unfold half_ulp in *; lra).
    destruct (round_bounds (s / c)) as (q & Hq & Hq1 & Hq2).
    { apply in_range. unfold half_ulp in *. split.
      - apply Qle_shift_div_l; [lra |]. lra.
      - apply Qle_shift_div_r; [lra |]. lra. }
    rewrite Hq.
    set (x := (s / c)%Q) in *.
    assert (0 < c)%Q as Hcpos by (unfold half_ulp in *; lra).
    assert (0 <= x)%Q as Hx0.
    { apply (Qmult_le_r _ _ c Hcpos). unfold half_ulp in *. lra. }
    assert (0 <= q)%Q as Hq0 by (unfold half_ulp in *; nra).
    assert (q * c <= (1 + half_ulp) * s)%Q as Hqc1.
    { assert (q * c <= (1 + half_ulp) * x * c)%Q
        by (apply Qmult_le_compat_r; [exact Hq2 | lra]).
      assert ((1 + half_ulp) * x * c == (1 + half_ulp) * (x * c))%Q as E by ring.
      rewrite E, Hdiv in H. exact H. }
    assert ((1 - half_ulp) * s <= q * c)%Q as Hqc2.
    { assert ((1 - half_ulp) * x * c <= q * c)%Q
        by (apply Qmult_le_compat_r; [exact Hq1 | lra]).
      assert ((1 - half_ulp) * x * c == (1 - half_ulp) * (x * c))%Q as E by ring.
      rewrite E, Hdiv in H. exact H. }
    assert (q * ((1 - half_ulp) * Nq) <= q * c)%Q as Hz1.
    { rewrite !(Qmult_comm q). apply Qmult_le_compat_r; [exact Hc1 | exact Hq0]. }
    assert (q * c <= q * ((1 + half_ulp) * Nq))%Q as Hz2.
    { rewrite !(Qmult_comm q). apply Qmult_le_compat_r; [exact Hc2 | exact Hq0]. }
    set (z := (q * Nq)%Q).
    assert (q * ((1 - half_ulp) * Nq) == (1 - half_ulp) * z)%Q as E1 by (unfold z; ring).
    assert (q * ((1 + half_ulp) * Nq) == (1 + half_ulp) * z)%Q as E2 by (unfold z; ring).
    rewrite E1 in Hz1. rewrite E2 in Hz2.
    assert ((1 - 4 * half_ulp) * Sq <= z <= (1 + 4 * half_ulp) * Sq)%Q as [Hz3 Hz4].
    { unfold half_ulp in *. split; lra. }
    assert (q <= 256)%Q as Hq256.
    { apply (Qmult_le_r _ _ Nq); [lra |]. fold z. unfold half_ulp in *. lra. }
    destruct (round_bounds (q + (1 # 2))) as (y & Hy & Hy1 & Hy2).
    { apply in_range. split; lra. }
    rewrite Hy. cbn [int_of_float].
    assert (0 <= y)%Q as Hy0 by (unfold half_ulp in *; nra).
    rewrite (Qtrunc_nonneg y Hy0).
    exists (Qfloor y). split; [reflexivity |].
    assert (y * (2 * Nq) <= (1 + half_ulp) * (q + (1 # 2)) * (2 * Nq))%Q as Hm1
      by (apply Qmult_le_compat_r; [exact Hy2 | lra]).
    assert ((1 - half_ulp) * (q + (1 # 2)) * (2 * Nq) <= y * (2 * Nq))%Q as Hm2
      by (apply Qmult_le_compat_r; [exact Hy1 | lra]).
    assert ((1 + half_ulp) * (q + (1 # 2)) * (2 * Nq) == (1 + half_ulp) * (2 * z + Nq))%Q
      as E3 by (unfold z; ring).
    assert ((1 - half_ulp) * (q + (1 # 2)) * (2 * Nq) == (1 - half_ulp) * (2 * z + Nq))%Q
      as E4 by (unfold z; ring).
    rewrite E3 in Hm1. rewrite E4 in Hm2.
    destruct (floor_of_scaled_8 y (2 * S + n) (2 * n)) as [[Hk1 Hk2] Hk3].
    { lia. }
    { change (2 ^ 49) with 562949953421312. change (2 ^ 40) with 1099511627776 in Hsize.
      lia. }
    { rewrite inject_Z_plus, !inject_Z_mult. fold Sq Nq.
      change (inject_Z 2) with 2%Q. unfold half_ulp in *. split; lra. }
    set (m := Qfloor y) in *.
    pose proof (Z.div_mod (2 * S + n) (2 * n) ltac:(lia)) as Hdm.
    pose proof (Z.mod_pos_bound (2 * S + n) (2 * n) ltac:(lia)) as Hmod.
    set (K := (2 * S + n) / (2 * n)) in *.
    set (rm := (2 * S + n) mod (2 * n)) in *.
    assert (2 * n * m - n <= 2 * S <= 2 * n * m + n) as Hmean.
    { destruct (Z.eq_dec rm 0) as [E0 | E0].
      - assert (m = K \/ m = K - 1) as [-> | ->] by lia; nia.
      - assert (m = K) as ->.
        { apply Hk3. intros Hd. apply E0. apply Z.mod_divide; [lia | exact Hd]. }
        nia. }
    split; [| exact Hmean].
    split; [apply Qfloor_lower; exact Hy0 | nia].
Qed.

(** Pillow's contrast enhancer with the factor 1.2, on an RGBA image. *)
Lemma Contrast_enhance_12 (fused : bool) (src : Image) :
  mode src = "RGBA" -> pixels_ok src ->
  0 < width src -> 0 < height src -> width src * height src <= 2 ^ 40 ->
  exists mean out,
    ImageEnhance.mean src = ok mean /\
    ImageEnhance.Contrast_enhance fused src (12 # 10) = ok out /\
    0 <= mean <= 255 /\
    (let n := width src * height src in
     let S := ImageEnhance.sum_L src (Z.to_nat n) in
     2 * n * mean - n <= 2 * S <= 2 * n * mean + n) /\
    mode out = "RGBA" /\ size out = size src /\
    forall x y, 0 <= x < width src -> 0 <= y < height src ->
      let p := getpixel src x y in
      let q := getpixel out x y in
      contrast_of mean (R p) (R q) /\ contrast_of mean (G p) (G q) /\
      contrast_of mean (B p) (B q) /\ A q = A p.
Proof.
  intros Hmode Hok Hw Hh Hsize.
  destruct (mean_spec src Hok Hw Hh Hsize) as (m & Hm & Hrange & Havg).
  unfold ImageEnhance.Contrast_enhance. rewrite Hm. cbn [rbind ok].
  unfold ImageEnhance.blend. cbn [ImageEnhance.degenerate mode size].
  rewrite String.eqb_refl, bool_decide_eq_true_2 by reflexivity. cbn [negb andb].
  change (CFloat.of_double (round_fin (12 # 10))) with alpha_12.
  assert (Qeq_bool alpha_12 0 = false) as -> by (vm_compute; reflexivity).
  assert (Qeq_bool alpha_12 1 = false) as -> by (vm_compute; reflexivity).
  eexists m, _. split; [reflexivity |]. split; [reflexivity |].
  split; [exact Hrange |]. split; [exact Havg |].
  split; [exact Hmode |]. split; [reflexivity |].
  intros x y Hx Hy.
  cbn [getpixel ImageEnhance.degenerate ImageEnhance.blend_bands R G B A].
  rewrite Hmode. cbn [String.eqb Ascii.eqb Bool.eqb].
  destruct (Hok x y Hx Hy) as (HR & HG & HB & HA).
  assert (channel_ok m) as Hmok by exact Hrange.
  split; [apply blend_channel_contrast; assumption |].
  split; [apply blend_channel_contrast; assumption |].
  split; [apply blend_channel_contrast; assumption |].
  apply blend_channel_same. exact HA.
Qed.
End ContrastImage.

Lemma TestDouble_contrast_contract : contrast_contract TestDouble.lib.
Proof. exists false. intros im factor _. reflexivity. Qed.

(** C8, as the specification states it, fails on the contrast rule. For the
    one-pixel image (50, 140, 25) the mean grey is 100 and the red channel
    deviates from it by -50: the deviation times 1.2 gives exactly the level
    40 (and, measured from mid-grey 128, the level 34.4), yet the enhancer
    returns 39. Pillow blends in [float], where the product of 1.2f and -50
    is a value just below -60, and truncates the sum; the fused evaluation
    gives 39 as well. *)
Lemma contrast_is_not_exact :
  let image := Samples.plain "RGBA" 1 1 (Pixel 50 140 25 255) in
  let o := Samples.with_contrast Samples.default_options in
  exists (out : Image) (t' : list event),
    enhance TestDouble.lib o image [] = (ok out, t') /\
    ImageEnhance.mean image = ok 100 /\
    getpixel out 0 0 = Pixel 39 148 10 255 /\
    (Spec.contrast 100 50 == 40)%Q /\
    (Spec.clamp (128 + (12 # 10) * inject_Z (50 - 128)) == 172 # 5)%Q /\
    ~ (inject_Z (R (getpixel out 0 0)) == Spec.contrast 100 50)%Q /\
    ImageEnhance.blend_channel true alpha_12 100 50 = 39.
Proof.
  intros image o. do 2 eexists.
  split; [vm_compute; reflexivity |]. split; [vm_compute; reflexivity |].
  split; [vm_compute; reflexivity |]. split; [vm_compute; reflexivity |].
  split; [vm_compute; reflexivity |].
  split; [vm_compute; discriminate | vm_compute; reflexivity].
Qed.

(** C8, amended. Whatever the flags, the enhancer sharpens first and raises
    the contrast second: with both flags set the contrast enhancer receives
    the sharpened image (and is not called when sharpening raises); a filter
    whose flag is off is not called and passes the image on unchanged. The
    contrast enhancer is called with the factor 1.2 and, being Pillow's
    (compiled with or without fused multiply-add), returns for an RGBA
    image with valid pixels, positive sides and at most [2 ^ 40] pixels an
    image of the same mode and size in which the alpha band is unchanged and
    every colour channel [v] has become the value of the rule
    [mean + 1.2 * (v - mean)], clamped to 0..255, rounded down to a level (or
    one level less when the value of the rule is itself a level); [mean] is
    the mean grey of the image, within 1/2 of the mean of the grey levels of
    its pixels. *)
Theorem enhance_sharpen_then_contrast (lib : Collaborators) (o : SessionOptions)
  (image : Image) (t : list event) :
  contrast_contract lib ->
  enhance lib o image t =
  match use_sharpen o, use_contrast o with
  | false, false => (ok image, t)
  | true, false => (filter_SHARPEN lib image, t ++ [Call_filter_SHARPEN])
  | false, true =>
      (Contrast_enhance lib image (12 # 10), t ++ [Call_Contrast_enhance (12 # 10)])
  | true, true =>
      match filter_SHARPEN lib image with
      | inl e => (inl e, t ++ [Call_filter_SHARPEN])
      | inr sharpened =>
          (Contrast_enhance lib sharpened (12 # 10),
           t ++ [Call_filter_SHARPEN; Call_Contrast_enhance (12 # 10)])
      end
  end /\
  forall src : Image,
    mode src = "RGBA" -> pixels_ok src ->
    0 < width src -> 0 < height src -> width src * height src <= 2 ^ 40 ->
    exists (mean : Z) (out : Image),
      Contrast_enhance lib src (12 # 10) = ok out /\
      0 <= mean <= 255 /\
      (let n := width src * height src in
       let S := ImageEnhance.sum_L src (Z.to_nat n) in
       2 * n * mean - n <= 2 * S <= 2 * n * mean + n) /\
      mode out = "RGBA" /\ size out = size src /\
      forall x y, 0 <= x < width src -> 0 <= y < height src ->
        let p := getpixel src x y in
        let q := getpixel out x y in
        contrast_of mean (R p) (R q) /\ contrast_of mean (G p) (G q) /\
        contrast_of mean (B p) (B q) /\ A q = A p.
Proof.
  intros [fused Hc]. split.
  - unfold enhance, pbind, call, pret.
    destruct (use_sharpen o), (use_contrast o); cbn.
    + destruct (filter_SHARPEN lib image) as [e | sharpened]; [reflexivity |].
      rewrite <- app_assoc.
      destruct (Contrast_enhance lib sharpened (12 # 10)); reflexivity.
    + destruct (filter_SHARPEN lib image); reflexivity.
    + destruct (Contrast_enhance lib image (12 # 10)); reflexivity.
    + reflexivity.
  - intros src Hmode Hok Hw Hh Hsize.
    destruct (Contrast_enhance_12 fused src Hmode Hok Hw Hh Hsize)
      as (mean & out & _ & Hout & Hrange & Havg & Hm & Hs & Hpix).
    exists mean, out. rewrite (Hc src (12 # 10) Hmode).
    split; [exact Hout |]. split; [exact Hrange |]. split; [exact Havg |].
    split; [exact Hm |]. split; [exact Hs |]. exact Hpix.
Qed.

Lemma enhance_sharpen_then_contrast_witness :
  let lib := TestDouble.lib in
  let image := Samples.plain "RGBA" 1 1 (Pixel 50 140 25 255) in
  let o := Samples.with_contrast (Samples.with_sharpen Samples.default_options) in
  enhance lib o image [] =
  match use_sharpen o, use_contrast o with
  | false, false => (ok image, [])
  | true, false => (filter_SHARPEN lib image, [] ++ [Call_filter_SHARPEN])
  | false, true =>
      (Contrast_enhance lib image (12 # 10), [] ++ [Call_Contrast_enhance (12 # 10)])
  | true, true =>
      match filter_SHARPEN lib image with
      | inl e => (inl e, [] ++ [Call_filter_SHARPEN])
      | inr sharpened =>
          (Contrast_enhance lib sharpened (12 # 10),
           [] ++ [Call_filter_SHARPEN; Call_Contrast_enhance (12 # 10)])
      end
  end /\
  forall src : Image,
    mode src = "RGBA" -> pixels_ok src ->
    0 < width src -> 0 < height src -> width src * height src <= 2 ^ 40 ->
    exists (mean : Z) (out : Image),
      Contrast_enhance lib src (12 # 10) = ok out /\
      0 <= mean <= 255 /\
      (let n := width src * height src in
       let S := ImageEnhance.sum_L src (Z.to_nat n) in
       2 * n * mean - n <= 2 * S <= 2 * n * mean + n) /\
      mode out = "RGBA" /\ size out = size src /\
      forall x y, 0 <= x < width src -> 0 <= y < height src ->
        let p := getpixel src x y in
        let q := getpixel out x y in
        contrast_of mean (R p) (R q) /\ contrast_of mean (G p) (G q) /\
        contrast_of mean (B p) (B q) /\ A q = A p.
Proof.
  intros lib image o.
  apply (enhance_sharpen_then_contrast TestDouble.lib o image []).
  exists false. intros im factor _. reflexivity.
Defined.

(** ** The page *)

(** C9. An upload whose size exceeds [MAX_FILE_SIZE] = 15 MiB is refused
    with the size-limit error before anything else happens: [process_image]
    is not called, so the cache is neither read nor written and the decoder
    is not invoked; the only event is the error message. *)
Theorem main_rejects_large_upload (lib : Collaborators) (now : Z)
  (my_upload : UploadedFile.t) (o : SessionOptions) (w : World) :
  15 * 1024 * 1024 < UploadedFile.size my_upload ->
  main lib now (Some my_upload) o w =
  (ok tt,
   {| cache := cache w;
      trace := trace w ++ [St_error
        "File size exceeds the limit of 15MB. Please upload a smaller image."] |}).
Proof.
  intros Hsize. unfold main.
  rewrite (proj2 (Z.ltb_lt MAX_FILE_SIZE (UploadedFile.size my_upload)) Hsize).
  reflexivity.
Qed.

Lemma main_rejects_large_upload_witness :
  let my_upload :=
    {| UploadedFile.name := "big.png"; UploadedFile.size := 20 * 1024 * 1024;
       UploadedFile.getvalue := repeat Byte.x00 (Z.to_nat (20 * 1024 * 1024)) |} in
  main TestDouble.lib 0 (Some my_upload) Samples.default_options Samples.empty_world =
  (ok tt,
   {| cache := ∅;
      trace := [St_error
        "File size exceeds the limit of 15MB. Please upload a smaller image."] |}).
Proof.
  intros my_upload.
  apply (main_rejects_large_upload TestDouble.lib 0 my_upload Samples.default_options
           Samples.empty_world).
  reflexivity.
Defined.

(** ** The pipeline *)

Section Programs.
Lemma pbind_ok_inv {A B} (c : prog A) (k : A -> prog B) (t t' : list event) (b : B) :
  pbind c k t = (ok b, t') ->
  exists a t1, c t = (ok a, t1) /\ k a t1 = (ok b, t').
Proof.
  unfold pbind. destruct (c t) as [[e | a] t1]; [discriminate |].
  intros H. exists a, t1. split; [reflexivity | exact H].
Qed.

Lemma call_ok_inv {A} (ev : event) (r : res A) (t t' : list event) (a : A) :
  call ev r t = (ok a, t') -> r = ok a /\ t' = t ++ [ev].
Proof. unfold call. intros [= -> <-]. split; reflexivity. Qed.

Lemma pret_ok_inv {A} (a a' : A) (t t' : list event) :
  pret a t = (ok a', t') -> a = a' /\ t = t'.
Proof. unfold pret. intros [= -> ->]. split; reflexivity. Qed.
End Programs.

Section Pipeline.
Context (lib : Collaborators).

Lemma process_image_func_success (b : bytes) (o : SessionOptions)
  (t t' : list event) (pre fin : Image) :
  process_image_func lib b o t = ((Some pre, Some fin), t') ->
  process_image_try lib b o t = (ok (pre, fin), t').
Proof.
  unfold process_image_func.
  destruct (process_image_try lib b o t) as [[e | [r f]] t1].
  - discriminate.
  - intros [= -> -> ->]. reflexivity.
Qed.

Lemma process_image_func_failure (b : bytes) (o : SessionOptions)
  (t t' : list event) (e : exn) :
  process_image_try lib b o t = (inl e, t') ->
  process_image_func lib b o t =
  ((None, None), t' ++ [St_error ("Error during image processing: " +:+ str e)]).
Proof. unfold process_image_func. intros ->. reflexivity. Qed.

(** A call that finds no live entry runs the function and stores what it
    returns. *)
Lemma process_image_miss (now : Z) (b : bytes) (o : SessionOptions) (w : World) :
  (forall entry, cache w !! (b, o) = Some entry -> inserted entry + ttl <= now) ->
  process_image lib now b o w =
  let '(v, t) := process_image_func lib b o [] in
  (v, {| cache := <[(b, o) := {| value := v;
                                 elements := filter (fun ev => is_st_element ev = true) t;
                                 inserted := now |}]> (cache w);
         trace := trace w ++ t |}).
Proof.
  intros Hmiss. unfold process_image.
  destruct (cache w !! (b, o)) as [entry |] eqn:E; [| reflexivity].
  specialize (Hmiss entry eq_refl).
  rewrite (proj2 (Z.ltb_ge now (inserted entry + ttl)) Hmiss). reflexivity.
Qed.

(** A call that finds a live entry returns its value and replays its
    elements; the function does not run. *)
Lemma process_image_hit (now : Z) (b : bytes) (o : SessionOptions) (w : World)
  (entry : CacheEntry) :
  cache w !! (b, o) = Some entry -> now < inserted entry + ttl ->
  process_image lib now b o w =
  (value entry, {| cache := cache w; trace := trace w ++ elements entry |}).
Proof.
  intros E Hlive. unfold process_image. rewrite E.
  rewrite (proj2 (Z.ltb_lt now (inserted entry + ttl)) Hlive). reflexivity.
Qed.
End Pipeline.

(** C1, as the specification states it, fails: with sharpening on, the first
    image returned for the 3x3 sample is the decoded image, whose centre
    is (200, 50, 50); the sharpened image, which goes on to background
    removal, has the centre (255, 0, 0). *)
Lemma process_image_first_is_not_enhanced :
  let o := Samples.with_sharpen Samples.default_options in
  exists (pre fin enhanced : Image) (t t2 : list event),
    process_image_func TestDouble.lib Samples.red_dot_ppm o [] = ((Some pre, Some fin), t) /\
    enhance TestDouble.lib o pre [] = (ok enhanced, t2) /\
    getpixel pre 1 1 = Pixel 200 50 50 255 /\
    getpixel enhanced 1 1 = Pixel 255 0 0 255 /\
    pre <> enhanced.
Proof.
  intros o. do 5 eexists.
  split; [reflexivity |]. split; [reflexivity |].
  split; [reflexivity |]. split; [reflexivity |].
  intros E. apply (f_equal (fun im => R (getpixel im 1 1))) in E.
  vm_compute in E. discriminate.
Qed.

(** C1, amended. When [process_image] succeeds, the first image of the pair
    is the image after decoding, conversion to RGBA and resizing, before the
    sharpen and contrast filters; the filters apply to that image afterwards,
    and their result goes to background removal and on to the second image of
    the pair only. *)
Theorem process_image_returns_resized (lib : Collaborators) (b : bytes)
  (o : SessionOptions) (t t' : list event) (pre fin : Image) :
  process_image_func lib b o t = ((Some pre, Some fin), t') ->
  exists (original rgba processed removed : Image) (t1 t2 t3 : list event),
    Image_open lib b = ok original /\
    (if negb (String.eqb (mode original) "RGBA")
     then Image_convert lib original "RGBA"
     else pret original) (t ++ [Call_open b]) = (ok rgba, t1) /\
    resize_image lib rgba MAX_IMAGE_DIM t1 = (ok pre, t2) /\
    enhance lib o pre t2 = (ok processed, t3) /\
    remove lib processed (alpha_matting o) (fg_threshold o) (bg_threshold o) = ok removed /\
    composite lib o removed
      (t3 ++ [Call_remove (alpha_matting o) (fg_threshold o) (bg_threshold o)]) =
    (ok fin, t').
Proof.
  intros H. apply process_image_func_success in H. unfold process_image_try in H.
  apply pbind_ok_inv in H as (original & t0 & Hopen & H).
  apply call_ok_inv in Hopen as [Hopen ->].
  apply pbind_ok_inv in H as (rgba & t1 & Hconv & H).
  apply pbind_ok_inv in H as (resized & t2 & Hres & H).
  apply pbind_ok_inv in H as (processed & t3 & Henh & H).
  apply pbind_ok_inv in H as (removed & t4 & Hrem & H).
  apply call_ok_inv in Hrem as [Hrem ->].
  apply pbind_ok_inv in H as (final & t5 & Hcomp & H).
  apply pret_ok_inv in H as [[= -> ->] ->].
  exists original, rgba, processed, removed, t1, t2, t3. repeat split; assumption.
Qed.

Lemma process_image_returns_resized_witness :
  exists pre fin t',
    process_image_func TestDouble.lib Samples.red_dot_ppm
      (Samples.with_sharpen Samples.default_options) [] = ((Some pre, Some fin), t') /\
    exists (original rgba processed removed : Image) (t1 t2 t3 : list event),
      Image_open TestDouble.lib Samples.red_dot_ppm = ok original /\
      (if negb (String.eqb (mode original) "RGBA")
       then Image_convert TestDouble.lib original "RGBA"
       else pret original) ([] ++ [Call_open Samples.red_dot_ppm]) = (ok rgba, t1) /\
      resize_image TestDouble.lib rgba MAX_IMAGE_DIM t1 = (ok pre, t2) /\
      enhance TestDouble.lib (Samples.with_sharpen Samples.default_options) pre t2 =
      (ok processed, t3) /\
      remove TestDouble.lib processed true 240 10 = ok removed /\
      composite TestDouble.lib (Samples.with_sharpen Samples.default_options) removed
        (t3 ++ [Call_remove true 240 10]) = (ok fin, t').
Proof.
  do 3 eexists. split; [reflexivity |].
  apply (process_image_returns_resized TestDouble.lib Samples.red_dot_ppm
           (Samples.with_sharpen Samples.default_options) []).
  reflexivity.
Defined.

(** C2, as the specification states it, fails. An empty payload cannot be
    decoded; a colour Pillow does not know fails in the compositor. Both
    requests return the same pair [(None, None)], which names neither a stage
    nor a cause. The failure is stored: the same request one second later is
    served from the cache, and the decoder is not called again. *)
Lemma process_image_failure_is_cached :
  let o := Samples.default_options in
  let bad_color := Samples.with_bg_color "no such colour" o in
  let '(r1, w1) := process_image TestDouble.lib 0 [] o Samples.empty_world in
  let '(r2, w2) := process_image TestDouble.lib 1 [] o w1 in
  let '(r3, w3) :=
    process_image TestDouble.lib 0 Samples.red_dot_ppm bad_color Samples.empty_world in
  r1 = (None, None) /\
  trace w1 = [Call_open [];
              St_error "Error during image processing: cannot identify image file"] /\
  option_map value (cache w1 !! ([], o)) = Some (None, None) /\
  r2 = (None, None) /\
  trace w2 = trace w1 ++
             [St_error "Error during image processing: cannot identify image file"] /\
  r3 = (None, None) /\
  last (trace w3) =
  Some (St_error "Error during image processing: unknown color specifier").
Proof. vm_compute. repeat split; reflexivity. Qed.

Section Stagewise.
Context (lib : Collaborators).

(** When a stage raises, the [try] block ends there: with the exception of
    the stage and the trace of that moment. *)
Lemma process_image_try_raises (b : bytes) (o : SessionOptions) (t : list event)
  (s : stage) (e : exn) (t' : list event) :
  raises_at lib b o t s e t' -> process_image_try lib b o t = (raise e, t').
Proof.
  unfold process_image_try, pbind, call.
  destruct s; cbn [raises_at]; unfold reaches_enhanced, reaches_resized, reaches_rgba,
    to_rgba, ok, raise.
  - intros [-> ->]. reflexivity.
  - intros (original & Hopen & Hconv). rewrite Hopen; cbv beta iota.
    rewrite Hconv. reflexivity.
  - intros (rgba & t1 & (original & Hopen & Hconv) & Hres).
    rewrite Hopen; cbv beta iota. rewrite Hconv; cbv beta iota.
    rewrite Hres. reflexivity.
  - intros (resized & t2 & (rgba & t1 & (original & Hopen & Hconv) & Hres) & Henh).
    rewrite Hopen; cbv beta iota. rewrite Hconv; cbv beta iota.
    rewrite Hres; cbv beta iota. rewrite Henh. reflexivity.
  - intros (processed & t3
            & (resized & t2 & (rgba & t1 & (original & Hopen & Hconv) & Hres) & Henh)
            & Hrem & ->).
    rewrite Hopen; cbv beta iota. rewrite Hconv; cbv beta iota.
    rewrite Hres; cbv beta iota. rewrite Henh; cbv beta iota.
    rewrite Hrem. reflexivity.
  - intros (processed & t3 & removed
            & (resized & t2 & (rgba & t1 & (original & Hopen & Hconv) & Hres) & Henh)
            & Hrem & Hcomp).
    rewrite Hopen; cbv beta iota. rewrite Hconv; cbv beta iota.
    rewrite Hres; cbv beta iota. rewrite Henh; cbv beta iota.
    rewrite Hrem; cbv beta iota. rewrite Hcomp. reflexivity.
Qed.

(** Every exception of the [try] block is the exception of a stage. *)
Lemma process_image_try_raises_inv (b : bytes) (o : SessionOptions) (t : list event)
  (e : exn) (t' : list event) :
  process_image_try lib b o t = (raise e, t') ->
  exists s, raises_at lib b o t s e t'.
Proof.
  unfold process_image_try, pbind, call.
  destruct (Image_open lib b) as [e0 | original] eqn:Hopen.
  { intros [= -> <-]. exists Decode. split; [exact Hopen | reflexivity]. }
  destruct ((if negb (String.eqb (mode original) "RGBA")
             then Image_convert lib original "RGBA"
             else pret original) (t ++ [Call_open b])) as [[e1 | rgba] t1] eqn:Hconv.
  { intros [= -> <-]. exists Normalize, original. split; [exact Hopen | exact Hconv]. }
  assert (reaches_rgba lib b t rgba t1) as R1.
  { exists original. split; [exact Hopen | exact Hconv]. }
  destruct (resize_image lib rgba MAX_IMAGE_DIM t1) as [[e2 | resized] t2] eqn:Hres.
  { intros [= -> <-]. exists Resize, rgba, t1. split; [exact R1 | exact Hres]. }
  assert (reaches_resized lib b t resized t2) as R2.
  { exists rgba, t1. split; [exact R1 | exact Hres]. }
  destruct (enhance lib o resized t2) as [[e3 | processed] t3] eqn:Henh.
  { intros [= -> <-]. exists Enhance, resized, t2. split; [exact R2 | exact Henh]. }
  assert (reaches_enhanced lib b o t processed t3) as R3.
  { exists resized, t2. split; [exact R2 | exact Henh]. }
  destruct (remove lib processed (alpha_matting o) (fg_threshold o) (bg_threshold o))
    as [e4 | removed] eqn:Hrem.
  { intros [= -> <-]. exists RemoveBackground, processed, t3.
    split; [exact R3 |]. split; [exact Hrem | reflexivity]. }
  destruct (composite lib o removed
              (t3 ++ [Call_remove (alpha_matting o) (fg_threshold o) (bg_threshold o)]))
    as [[e5 | final] t5] eqn:Hcomp.
  { intros [= -> <-]. exists Composite, processed, t3, removed.
    split; [exact R3 |]. split; [exact Hrem | exact Hcomp]. }
  unfold pret. discriminate.
Qed.
End Stagewise.

(** C2, amended. When a stage raises (decoding, conversion to RGBA,
    resizing, the filters, background removal or compositing, the stages
    before it having returned), the pipeline aborts: the [try] block ends
    with the exception of that stage, and the trace of the run is the trace
    at the moment the stage raised followed by the error message alone, so
    that no later stage runs. The handler shows the message of the exception
    with [st.error] and [process_image] returns [(None, None)], the same
    ordinary value whatever the stage and the cause. Like every value the
    function returns it is stored in the cache: while the entry lives, the
    same request gets [(None, None)] from the cache, with the elements
    replayed and no stage run again. *)
Theorem process_image_failure_memoized (lib : Collaborators) (now : Z) (b : bytes)
  (o : SessionOptions) (w : World) (s : stage) (e : exn) (t' : list event) :
  raises_at lib b o [] s e t' ->
  (forall entry, cache w !! (b, o) = Some entry -> inserted entry + ttl <= now) ->
  process_image_try lib b o [] = (raise e, t') /\
  exists w1 : World,
    process_image lib now b o w = ((None, None), w1) /\
    trace w1 =
    trace w ++ t' ++ [St_error ("Error during image processing: " +:+ str e)] /\
    (exists entry, cache w1 !! (b, o) = Some entry /\
                   value entry = (None, None) /\ inserted entry = now) /\
    forall now', now' < now + ttl ->
      exists replay : list event,
        process_image lib now' b o w1 =
        ((None, None), {| cache := cache w1; trace := trace w1 ++ replay |}) /\
        Forall (fun ev => is_st_element ev = true) replay.
Proof.
  intros Hstage Hmiss.
  pose proof (process_image_try_raises lib b o [] s e t' Hstage) as Hfail.
  split; [exact Hfail |].
  rewrite (process_image_miss lib now b o w Hmiss).
  rewrite (process_image_func_failure lib b o [] t' e Hfail).
  eexists. split; [reflexivity |]. cbn [trace cache].
  split; [reflexivity |]. split.
  - eexists. split; [apply lookup_insert_eq |]. split; reflexivity.
  - intros now' Hlive.
    match goal with
    | |- context [<[_ := ?en]> _] => set (entry := en)
    end.
    exists (elements entry). split.
    + rewrite (process_image_hit lib now' b o _ entry).
      * reflexivity.
      * cbn [cache]. apply lookup_insert_eq.
      * exact Hlive.
    + cbn [elements entry]. apply Forall_forall. intros ev Hev.
      apply list_elem_of_filter in Hev. tauto.
Qed.

Lemma process_image_failure_memoized_witness :
  let b : bytes := [] in
  let o := Samples.default_options in
  let e := TestDouble.UnidentifiedImageError in
  let t' := [Call_open b] in
  raises_at TestDouble.lib b o [] Decode e t' /\
  process_image_try TestDouble.lib b o [] = (raise e, t') /\
  exists w1 : World,
    process_image TestDouble.lib 0 b o Samples.empty_world = ((None, None), w1) /\
    trace w1 =
    [] ++ t' ++ [St_error ("Error during image processing: " +:+ str e)] /\
    (exists entry, cache w1 !! (b, o) = Some entry /\
                   value entry = (None, None) /\ inserted entry = 0) /\
    forall now', now' < 0 + ttl ->
      exists replay : list event,
        process_image TestDouble.lib now' b o w1 =
        ((None, None), {| cache := cache w1; trace := trace w1 ++ replay |}) /\
        Forall (fun ev => is_st_element ev = true) replay.
Proof.
  intros b o e t'.
  assert (raises_at TestDouble.lib b o [] Decode e t') as Hstage
    by (split; reflexivity).
  split; [exact Hstage |].
  apply (process_image_failure_memoized TestDouble.lib 0 b o Samples.empty_world
           Decode e t' Hstage).
  intros entry H. cbn [Samples.empty_world cache] in H.
  rewrite lookup_empty in H. discriminate.
Defined.

(** A failure of the last stage: a colour Pillow does not know makes the
    compositor raise after the decoder, the conversion and rembg have
    run. *)
Lemma raises_at_compositor_example :
  let b := Samples.red_dot_ppm in
  let o := Samples.with_bg_color "no such colour" Samples.default_options in
  let e := ValueError "unknown color specifier" in
  let t' := [Call_open b; Call_convert "RGBA"; Call_remove true 240 10;
             Call_getcolor "no such colour"] in
  raises_at TestDouble.lib b o [] Composite e t' /\
  process_image_try TestDouble.lib b o [] = (raise e, t').
Proof.
  intros b o e t'.
  assert (raises_at TestDouble.lib b o [] Composite e t') as Hstage.
  { do 3 eexists. split.
    - do 2 eexists. split.
      + do 2 eexists. split.
        * eexists. split; reflexivity.
        * reflexivity.
      + reflexivity.
    - split; reflexivity. }
  split; [exact Hstage |].
  exact (process_image_try_raises TestDouble.lib b o [] Composite e t' Hstage).
Qed.

(** * Further properties *)

(** ** The resizer, continued *)

Lemma resize_image_size_nonneg (width height max_dim new_width new_height : Z) :
  0 < width -> 0 < height -> 0 < max_dim ->
  max_dim * Z.max width height <= 2 ^ 50 ->
  resize_image_size width height max_dim = ok (new_width, new_height) ->
  0 <= new_width /\ 0 <= new_height.
Proof.
  intros Hw Hh HM Hb.
  assert (small_int width) as Sw by (unfold small_int; nia).
  assert (small_int height) as Sh by (unfold small_int; nia).
  assert (small_int max_dim) as SM by (unfold small_int; nia).
  destruct (truediv_int_int_bounds width height Sw Sh) as (a & Ha & Hab).
  pose proof (float_ratio_range a width height Sw Sh Hab) as Har.
  unfold resize_image_size. rewrite Ha. cbn [rbind ok].
  destruct (height <? width).
  - destruct (truediv_int_float_bounds max_dim a SM Har) as (r & Hr & Hr0 & _).
    rewrite Hr. cbn [rbind ok int_of_float]. rewrite (Qtrunc_nonneg r Hr0).
    intros [= <- <-]. split; [lia |]. apply Qfloor_lower. exact Hr0.
  - destruct (mul_int_float_bounds max_dim a SM Har) as (r & Hr & Hr0 & _).
    rewrite Hr. cbn [rbind ok int_of_float]. rewrite (Qtrunc_nonneg r Hr0).
    intros [= <- <-]. split; [| lia]. apply Qfloor_lower. exact Hr0.
Qed.

(** The size asked of the resampler, with what is known of it. *)
Lemma resize_image_size_facts (width height max_dim : Z) :
  0 < width -> 0 < height -> 0 < max_dim ->
  max_dim < width \/ max_dim < height ->
  max_dim * Z.max width height <= 2 ^ 50 ->
  exists new_width new_height,
    resize_image_size width height max_dim = ok (new_width, new_height) /\
    0 <= new_width < width /\ 0 <= new_height < height /\
    new_width <= max_dim /\ new_height <= max_dim /\
    (max_dim * Z.min width height < Z.max width height ->
     Z.min new_width new_height = 0) /\
    (2 * Z.max width height <= max_dim * Z.min width height ->
     1 <= Z.min new_width new_height).
Proof.
  intros Hw Hh HM Hbig Hb.
  destruct (resize_image_size_truncates width height max_dim Hw Hh HM Hb)
    as (nw & nh & E & Hmax & Hland & Hport & Hk & _).
  destruct (resize_image_size_nonneg width height max_dim nw nh Hw Hh HM Hb E)
    as [Hnw Hnh].
  exists nw, nh. split; [exact E |].
  set (long_side := Z.max width height) in *.
  set (short_side := Z.min width height) in *.
  set (k := max_dim * short_side / long_side) in *.
  assert (0 < long_side) as Hl by (unfold long_side; lia).
  assert (0 < short_side) as Hs by (unfold short_side; lia).
  assert (max_dim < long_side) as HMl by (unfold long_side; lia).
  assert (k < short_side) as Hks.
  { apply Z.div_lt_upper_bound; [exact Hl |]. nia. }
  assert (max_dim * short_side < long_side -> k = 0) as Hzero.
  { intros Hlt. apply Z.div_small. nia. }
  assert (2 * long_side <= max_dim * short_side -> 2 <= k) as Htwo.
  { intros Hge. apply Z.div_le_lower_bound; [exact Hl | lia]. }
  clearbody k. unfold long_side, short_side in *.
  destruct (Z.lt_ge_cases height width) as [Hlt | Hge].
  - specialize (Hland Hlt). repeat split; lia.
  - specialize (Hport Hge). repeat split; lia.
Qed.

(** X1. Resizing never enlarges: for an image with positive sides of which
    one exceeds [max_dim], both sides of the size asked of the resampler are
    strictly smaller than the sides of the image, at most [max_dim], and not
    negative. *)
Theorem resize_image_shrinks (lib : Collaborators) (image : Image) (max_dim : Z)
  (t : list event) :
  0 < width image -> 0 < height image -> 0 < max_dim ->
  max_dim < width image \/ max_dim < height image ->
  max_dim * Z.max (width image) (height image) <= 2 ^ 50 ->
  exists new_width new_height,
    resize_image lib image max_dim t =
    (Image_resize lib image (new_width, new_height),
     t ++ [Call_resize (new_width, new_height)]) /\
    0 <= new_width < width image /\ 0 <= new_height < height image /\
    new_width <= max_dim /\ new_height <= max_dim.
Proof.
  intros Hw Hh HM Hbig Hb.
  destruct (resize_image_size_facts (width image) (height image) max_dim
              Hw Hh HM Hbig Hb) as (nw & nh & E & H1 & H2 & H3 & H4 & _).
  exists nw, nh.
  rewrite (resize_image_large lib image max_dim t Hbig), E.
  repeat split; lia.
Qed.

Lemma resize_image_shrinks_witness :
  let image := Samples.plain "RGBA" 4000 3000 (Pixel 30 30 30 255) in
  exists new_width new_height,
    resize_image TestDouble.lib image MAX_IMAGE_DIM [] =
    (Image_resize TestDouble.lib image (new_width, new_height),
     [] ++ [Call_resize (new_width, new_height)]) /\
    0 <= new_width < width image /\ 0 <= new_height < height image /\
    new_width <= MAX_IMAGE_DIM /\ new_height <= MAX_IMAGE_DIM.
Proof.
  intros image.
  apply (resize_image_shrinks TestDouble.lib image MAX_IMAGE_DIM []).
  - reflexivity.
  - reflexivity.
  - reflexivity.
  - left. reflexivity.
  - vm_compute. discriminate.
Defined.

(** X2. The shorter side collapses to 0 exactly when the image is too
    elongated: if [max_dim * short < long] the size asked of the resampler has
    a side 0 (the case of a 5001 x 2 image); if [max_dim * short >= 2 * long]
    both sides are at least 1. *)
Theorem resize_image_zero_side (lib : Collaborators) (image : Image) (max_dim : Z)
  (t : list event) :
  0 < width image -> 0 < height image -> 0 < max_dim ->
  max_dim < width image \/ max_dim < height image ->
  max_dim * Z.max (width image) (height image) <= 2 ^ 50 ->
  exists new_width new_height,
    resize_image lib image max_dim t =
    (Image_resize lib image (new_width, new_height),
     t ++ [Call_resize (new_width, new_height)]) /\
    let long_side := Z.max (width image) (height image) in
    let short_side := Z.min (width image) (height image) in
    (max_dim * short_side < long_side -> Z.min new_width new_height = 0) /\
    (2 * long_side <= max_dim * short_side -> 1 <= new_width /\ 1 <= new_height).
Proof.
  intros Hw Hh HM Hbig Hb.
  destruct (resize_image_size_facts (width image) (height image) max_dim
              Hw Hh HM Hbig Hb) as (nw & nh & E & _ & _ & _ & _ & Hz & Hp).
  exists nw, nh.
  rewrite (resize_image_large lib image max_dim t Hbig), E.
  split; [reflexivity |]. cbn zeta. split; [exact Hz |].
  intros H2. specialize (Hp H2). lia.
Qed.

Lemma resize_image_zero_side_witness :
  let image := Samples.plain "RGBA" 3 9000 (Pixel 30 30 30 255) in
  exists new_width new_height,
    resize_image TestDouble.lib image MAX_IMAGE_DIM [] =
    (Image_resize TestDouble.lib image (new_width, new_height),
     [] ++ [Call_resize (new_width, new_height)]) /\
    let long_side := Z.max (width image) (height image) in
    let short_side := Z.min (width image) (height image) in
    (MAX_IMAGE_DIM * short_side < long_side -> Z.min new_width new_height = 0) /\
    (2 * long_side <= MAX_IMAGE_DIM * short_side -> 1 <= new_width /\ 1 <= new_height).
Proof.
  intros image.
  apply (resize_image_zero_side TestDouble.lib image MAX_IMAGE_DIM []).
  - reflexivity.
  - reflexivity.
  - reflexivity.
  - right. reflexivity.
  - vm_compute. discriminate.
Defined.

(** The sides of what [resize_image] returns, under the contract of the
    resampler. *)
Lemma resize_image_result_fits (lib : Collaborators) (image out : Image)
  (max_dim : Z) (t t' : list event) :
  resampler_contract lib ->
  0 < width image -> 0 < height image -> 0 < max_dim ->
  max_dim * Z.max (width image) (height image) <= 2 ^ 50 ->
  resize_image lib image max_dim t = (ok out, t') ->
  width out <= max_dim /\ height out <= max_dim.
Proof.
  intros Hc Hw Hh HM Hb Hres.
  destruct (Z.le_gt_cases (width image) max_dim) as [Hws | Hwl];
    [destruct (Z.le_gt_cases (height image) max_dim) as [Hhs | Hhl] |].
  - rewrite (resize_image_fits lib image max_dim t Hws Hhs) in Hres.
    injection Hres as <- _. split; assumption.
  - destruct (resize_image_size_facts (width image) (height image) max_dim
                Hw Hh HM (or_intror Hhl) Hb) as (nw & nh & E & _ & _ & H3 & H4 & _).
    rewrite (resize_image_large lib image max_dim t (or_intror Hhl)), E in Hres.
    injection Hres as Hout _. apply Hc in Hout.
    unfold width, height. rewrite Hout. split; assumption.
  - destruct (resize_image_size_facts (width image) (height image) max_dim
                Hw Hh HM (or_introl Hwl) Hb) as (nw & nh & E & _ & _ & H3 & H4 & _).
    rewrite (resize_image_large lib image max_dim t (or_introl Hwl)), E in Hres.
    injection Hres as Hout _. apply Hc in Hout.
    unfold width, height. rewrite Hout. split; assumption.
Qed.

(** X3. Whatever [resize_image] returns fits in [max_dim]: when the
    resampler returns images of the size it is asked for, every image that
    [resize_image] returns has both sides at most [max_dim]. *)
Theorem resize_image_within_max_dim (lib : Collaborators) (image out : Image)
  (max_dim : Z) (t t' : list event) :
  resampler_contract lib ->
  0 < width image -> 0 < height image -> 0 < max_dim ->
  max_dim * Z.max (width image) (height image) <= 2 ^ 50 ->
  resize_image lib image max_dim t = (ok out, t') ->
  width out <= max_dim /\ height out <= max_dim.
Proof.
  intros Hc Hw Hh HM Hb Hres.
  exact (resize_image_result_fits lib image out max_dim t t' Hc Hw Hh HM Hb Hres).
Qed.

Lemma resize_image_size_4000_3000 :
  resize_image_size 4000 3000 MAX_IMAGE_DIM = ok (2500, 1875).
Proof. vm_compute. reflexivity. Qed.

Lemma resize_image_within_max_dim_witness :
  let image := Samples.plain "RGBA" 4000 3000 (Pixel 30 30 30 255) in
  let out :=
    {| mode := "RGBA"; size := (2500, 1875);
       getpixel := fun x y => getpixel image (x * 4000 / 2500) (y * 3000 / 1875) |} in
  width out <= MAX_IMAGE_DIM /\ height out <= MAX_IMAGE_DIM.
Proof.
  intros image out.
  apply (resize_image_within_max_dim TestDouble.lib image out MAX_IMAGE_DIM []
           ([] ++ [Call_resize (2500, 1875)])).
  - exact TestDouble_resampler_contract.
  - reflexivity.
  - reflexivity.
  - reflexivity.
  - vm_compute. discriminate.
  - rewrite resize_image_large by (left; reflexivity).
    change (width image) with 4000. change (height image) with 3000.
    rewrite resize_image_size_4000_3000. reflexivity.
Defined.

(** X4. Resizing twice is resizing once: under the same contract, the image
    that [resize_image] returns is returned as it is by a second call, and
    the resampler is not called again. *)
Theorem resize_image_idempotent (lib : Collaborators) (image out : Image)
  (max_dim : Z) (t t' : list event) :
  resampler_contract lib ->
  0 < width image -> 0 < height image -> 0 < max_dim ->
  max_dim * Z.max (width image) (height image) <= 2 ^ 50 ->
  resize_image lib image max_dim t = (ok out, t') ->
  resize_image lib out max_dim t' = (ok out, t').
Proof.
  intros Hc Hw Hh HM Hb Hres.
  destruct (resize_image_result_fits lib image out max_dim t t' Hc Hw Hh HM Hb Hres)
    as [H1 H2].
  apply resize_image_fits; assumption.
Qed.

Lemma resize_image_idempotent_witness :
  let image := Samples.plain "RGBA" 4000 3000 (Pixel 30 30 30 255) in
  let out :=
    {| mode := "RGBA"; size := (2500, 1875);
       getpixel := fun x y => getpixel image (x * 4000 / 2500) (y * 3000 / 1875) |} in
  resize_image TestDouble.lib out MAX_IMAGE_DIM ([] ++ [Call_resize (2500, 1875)]) =
  (ok out, [] ++ [Call_resize (2500, 1875)]).
Proof.
  intros image out.
  apply (resize_image_idempotent TestDouble.lib image out MAX_IMAGE_DIM []
           ([] ++ [Call_resize (2500, 1875)])).
  - exact TestDouble_resampler_contract.
  - reflexivity.
  - reflexivity.
  - reflexivity.
  - vm_compute. discriminate.
  - rewrite resize_image_large by (left; reflexivity).
    change (width image) with 4000. change (height image) with 3000.
    rewrite resize_image_size_4000_3000. reflexivity.
Defined.

(** X5. An image of height 0 that is wider than [max_dim] makes
    [resize_image] raise [ZeroDivisionError] (from [width / height]); the
    resampler is not called. *)
Theorem resize_image_zero_division (lib : Collaborators) (image : Image)
  (max_dim : Z) (t : list event) :
  height image = 0 -> max_dim < width image ->
  resize_image lib image max_dim t =
  (raise (ZeroDivisionError "division by zero"), t).
Proof.
  intros Hh Hw.
  rewrite (resize_image_large lib image max_dim t (or_introl Hw)).
  rewrite Hh. unfold resize_image_size, truediv_int_int. reflexivity.
Qed.

Lemma resize_image_zero_division_witness :
  resize_image TestDouble.lib (Samples.plain "RGBA" 3000 0 (Pixel 0 0 0 0))
    MAX_IMAGE_DIM [] =
  (raise (ZeroDivisionError "division by zero"), []).
Proof.
  apply (resize_image_zero_division TestDouble.lib
           (Samples.plain "RGBA" 3000 0 (Pixel 0 0 0 0)) MAX_IMAGE_DIM []);
    reflexivity.
Defined.

(** ** The compositor, continued *)

Lemma DIV255_multiple (x : Z) : channel_ok x -> DIV255 (255 * x) = x.
Proof.
  unfold channel_ok. intros Hx.
  pose proof (DIV255_nearest (255 * x) ltac:(lia)). lia.
Qed.

Lemma BLEND_opaque (in1 in2 : Z) : channel_ok in2 -> BLEND 255 in1 in2 = in2.
Proof.
  intros H. unfold BLEND. replace (in1 * (255 - 255) + in2 * 255) with (255 * in2) by lia.
  apply DIV255_multiple. exact H.
Qed.

Lemma BLEND_clear (in1 in2 : Z) : channel_ok in1 -> BLEND 0 in1 in2 = in1.
Proof.
  intros H. unfold BLEND. replace (in1 * (255 - 0) + in2 * 0) with (255 * in1) by lia.
  apply DIV255_multiple. exact H.
Qed.

Lemma BLEND_range (mask in1 in2 : Z) :
  channel_ok mask -> channel_ok in1 -> channel_ok in2 -> channel_ok (BLEND mask in1 in2).
Proof.
  intros Hm H1 H2. pose proof (BLEND_nearest mask in1 in2 Hm H1 H2) as Hn.
  unfold channel_ok in *. nia.
Qed.

(** X6. Over a colour, a fully opaque pixel of the foreground keeps its
    exact colour and a fully transparent one shows exactly the background
    colour. *)
Theorem composite_color_extremes (lib : Collaborators) (o : SessionOptions)
  (fg : Image) (bg : pixel) (t : list event) :
  bg_color o <> "transparent" ->
  getcolor lib (bg_color o) = ok bg -> pixel_ok bg ->
  mode fg = "RGBA" -> 0 <= width fg -> 0 <= height fg -> pixels_ok fg ->
  exists (out : Image) (t' : list event),
    composite lib o fg t = (ok out, t') /\
    forall x y, 0 <= x < width fg -> 0 <= y < height fg ->
      let p := getpixel fg x y in
      let q := getpixel out x y in
      (A p = 255 -> R q = R p /\ G q = G p /\ B q = B p) /\
      (A p = 0 -> R q = R bg /\ G q = G bg /\ B q = B bg).
Proof.
  intros Hc Hbg Hbgok Hm Hw Hh Hfg.
  eexists; eexists. split; [apply (composite_color lib o fg bg t); assumption |].
  intros x y Hx Hy p q. subst q. cbn [over_color getpixel].
  assert ((0 <=? x) && (x <? 0 + width fg) && (0 <=? y) && (y <? 0 + height fg) = true)
    as ->.
  { rewrite !andb_true_iff, !Z.leb_le, !Z.ltb_lt. lia. }
  rewrite !Z.sub_0_r. fold p. cbn [blend_pixel R G B A].
  destruct (Hfg x y Hx Hy) as (Hr & Hg & Hb & Ha). fold p in Hr, Hg, Hb, Ha.
  destruct Hbgok as (Br & Bg & Bb & _).
  split; intros ->.
  - rewrite !BLEND_opaque by assumption. repeat split.
  - rewrite !BLEND_clear by assumption. repeat split.
Qed.

Lemma composite_color_extremes_witness :
  let fg := Samples.plain "RGBA" 2 2 (Pixel 200 50 50 255) in
  exists (out : Image) (t' : list event),
    composite TestDouble.lib Samples.default_options fg [] = (ok out, t') /\
    forall x y, 0 <= x < width fg -> 0 <= y < height fg ->
      let p := getpixel fg x y in
      let q := getpixel out x y in
      (A p = 255 -> R q = R p /\ G q = G p /\ B q = B p) /\
      (A p = 0 -> R q = 30 /\ G q = 30 /\ B q = 30).
Proof.
  intros fg.
  apply (composite_color_extremes TestDouble.lib Samples.default_options fg
           (Pixel 30 30 30 255) []).
  - discriminate.
  - reflexivity.
  - unfold pixel_ok, channel_ok; simpl; lia.
  - reflexivity.
  - vm_compute; discriminate.
  - vm_compute; discriminate.
  - intros x y _ _. unfold pixel_ok, channel_ok; simpl; lia.
Defined.

(** X7. Over a colour the compositor keeps bytes bytes: every channel of
    every pixel of the result lies in 0..255, and the result has the size
    of the foreground. *)
Theorem composite_color_pixels_ok (lib : Collaborators) (o : SessionOptions)
  (fg : Image) (bg : pixel) (t : list event) :
  bg_color o <> "transparent" ->
  getcolor lib (bg_color o) = ok bg -> pixel_ok bg ->
  mode fg = "RGBA" -> 0 <= width fg -> 0 <= height fg -> pixels_ok fg ->
  exists (out : Image) (t' : list event),
    composite lib o fg t = (ok out, t') /\ size out = size fg /\ pixels_ok out.
Proof.
  intros Hc Hbg Hbgok Hm Hw Hh Hfg.
  eexists; eexists. split; [apply (composite_color lib o fg bg t); assumption |].
  split; [reflexivity |].
  intros x y Hx Hy.
  change (width (over_color bg fg)) with (width fg) in Hx.
  change (height (over_color bg fg)) with (height fg) in Hy.
  cbn [over_color getpixel].
  assert ((0 <=? x) && (x <? 0 + width fg) && (0 <=? y) && (y <? 0 + height fg) = true)
    as ->.
  { rewrite !andb_true_iff, !Z.leb_le, !Z.ltb_lt. lia. }
  rewrite !Z.sub_0_r.
  destruct (Hfg x y Hx Hy) as (Hr & Hg & Hb & Ha).
  destruct Hbgok as (Br & Bg & Bb & _).
  unfold pixel_ok. cbn [blend_pixel R G B A].
  split; [| split; [| split]]; try (apply BLEND_range; assumption).
  unfold channel_ok. lia.
Qed.

Lemma composite_color_pixels_ok_witness :
  let fg := Samples.plain "RGBA" 2 2 (Pixel 200 50 50 128) in
  exists (out : Image) (t' : list event),
    composite TestDouble.lib Samples.default_options fg [] = (ok out, t') /\
    size out = size fg /\ pixels_ok out.
Proof.
  intros fg.
  apply (composite_color_pixels_ok TestDouble.lib Samples.default_options fg
           (Pixel 30 30 30 255) []).
  - discriminate.
  - reflexivity.
  - unfold pixel_ok, channel_ok; simpl; lia.
  - reflexivity.
  - vm_compute; discriminate.
  - vm_compute; discriminate.
  - intros x y _ _. unfold pixel_ok, channel_ok; simpl; lia.
Defined.

(** The mode and size of what the compositor returns for an RGBA
    foreground. *)
Lemma composite_mode (lib : Collaborators) (o : SessionOptions) (fg out : Image)
  (t t' : list event) :
  composite lib o fg t = (ok out, t') -> mode fg = "RGBA" ->
  mode out = (if String.eqb (bg_color o) "transparent" then "RGBA" else "RGB") /\
  size out = size fg.
Proof.
  unfold composite. intros H Hm.
  destruct (String.eqb (bg_color o) "transparent"); cbn [negb] in H.
  - injection H as <- _. split; [exact Hm | reflexivity].
  - unfold Image_new, Image_paste, Image_convert, pbind, call, lift, pret in H.
    destruct (getcolor lib (bg_color o)) as [e | c]; [discriminate |].
    unfold Pillow.new in H.
    destruct ((fst (size fg) <? 0) || (snd (size fg) <? 0)); [discriminate |].
    cbn [ok mode] in H. rewrite Hm in H.
    cbn [String.eqb Ascii.eqb Bool.eqb andb] in H.
    unfold paste_RGBA in H. rewrite bool_decide_eq_true_2 in H by reflexivity.
    cbn [negb ok mode String.eqb Ascii.eqb Bool.eqb andb] in H.
    injection H as <- _. split; reflexivity.
Qed.

(** ** The pipeline, continued *)

Lemma process_image_try_ok (lib : Collaborators) (b : bytes) (o : SessionOptions)
  (t t' : list event) (pre fin : Image) :
  process_image_try lib b o t = (ok (pre, fin), t') ->
  exists (original rgba processed removed : Image) (t1 t2 t3 : list event),
    Image_open lib b = ok original /\
    (if negb (String.eqb (mode original) "RGBA")
     then Image_convert lib original "RGBA"
     else pret original) (t ++ [Call_open b]) = (ok rgba, t1) /\
    resize_image lib rgba MAX_IMAGE_DIM t1 = (ok pre, t2) /\
    enhance lib o pre t2 = (ok processed, t3) /\
    remove lib processed (alpha_matting o) (fg_threshold o) (bg_threshold o) = ok removed /\
    composite lib o removed
      (t3 ++ [Call_remove (alpha_matting o) (fg_threshold o) (bg_threshold o)]) =
    (ok fin, t').
Proof.
  intros H. unfold process_image_try in H.
  apply pbind_ok_inv in H as (original & t0 & Hopen & H).
  apply call_ok_inv in Hopen as [Hopen ->].
  apply pbind_ok_inv in H as (rgba & t1 & Hconv & H).
  apply pbind_ok_inv in H as (resized & t2 & Hres & H).
  apply pbind_ok_inv in H as (processed & t3 & Henh & H).
  apply pbind_ok_inv in H as (removed & t4 & Hrem & H).
  apply call_ok_inv in Hrem as [Hrem ->].
  apply pbind_ok_inv in H as (final & t5 & Hcomp & H).
  apply pret_ok_inv in H as [[= -> ->] ->].
  exists original, rgba, processed, removed, t1, t2, t3. repeat split; assumption.
Qed.

(** X8. The mode of the final image follows the background setting: when
    rembg returns RGBA images, a successful [process_image] returns an RGBA
    final image for the transparent setting and an RGB one for every colour,
    so the PNG-or-JPEG choice of [main] never meets an alpha band in a
    JPEG. *)
Theorem process_image_final_mode (lib : Collaborators) (b : bytes)
  (o : SessionOptions) (t t' : list event) (pre fin : Image) :
  rembg_contract lib ->
  process_image_func lib b o t = ((Some pre, Some fin), t') ->
  mode fin = (if String.eqb (bg_color o) "transparent" then "RGBA" else "RGB").
Proof.
  intros Hc H. apply process_image_func_success in H.
  apply process_image_try_ok in H
    as (original & rgba & processed & removed & t1 & t2 & t3 & _ & _ & _ & _ & Hrem & Hcomp).
  apply Hc in Hrem.
  apply (composite_mode lib o removed fin _ t' Hcomp Hrem).
Qed.

Lemma TestDouble_rembg_contract : rembg_contract TestDouble.lib.
Proof. intros im am fg bg out [= <-]. reflexivity. Qed.

Lemma process_image_final_mode_witness :
  exists pre fin t',
    process_image_func TestDouble.lib Samples.red_dot_ppm Samples.default_options [] =
    ((Some pre, Some fin), t') /\
    mode fin = "RGB".
Proof.
  do 3 eexists. split; [reflexivity |].
  eapply (process_image_final_mode TestDouble.lib Samples.red_dot_ppm
            Samples.default_options []).
  - exact TestDouble_rembg_contract.
  - reflexivity.
Defined.

(** X9. A payload the decoder refuses: only the decoder is called, the
    message of its exception is shown, and the result is [(None, None)]. *)
Theorem process_image_decode_failure (lib : Collaborators) (b : bytes)
  (o : SessionOptions) (t : list event) (e : exn) :
  Image_open lib b = raise e ->
  process_image_func lib b o t =
  ((None, None),
   t ++ [Call_open b; St_error ("Error during image processing: " +:+ str e)]).
Proof.
  intros H. unfold process_image_func, process_image_try, pbind, call.
  rewrite H. cbn. rewrite <- app_assoc. reflexivity.
Qed.

Lemma process_image_decode_failure_witness :
  process_image_func TestDouble.lib [] Samples.default_options [] =
  ((None, None),
   [] ++ [Call_open [];
          St_error ("Error during image processing: "
                    +:+ str TestDouble.UnidentifiedImageError)]).
Proof.
  apply (process_image_decode_failure TestDouble.lib [] Samples.default_options []
           TestDouble.UnidentifiedImageError).
  reflexivity.
Defined.

(** *** Which library calls a run makes *)

Section Emits.
Context {A B : Type} (P : event -> Prop).

Lemma emits_run (c : prog A) :
  emits P c -> forall t, exists r d, c t = (r, t ++ d) /\ Forall P d.
Proof.
  intros H t. destruct (H t) as (d & E & F). exists (fst (c t)), d.
  split; [| exact F]. rewrite <- E. apply surjective_pairing.
Qed.

Lemma emits_pret (a : A) : emits P (pret a).
Proof. intros t. exists []. split; [symmetry; apply app_nil_r | constructor]. Qed.

Lemma emits_lift (r : res A) : emits P (lift r).
Proof. intros t. exists []. split; [symmetry; apply app_nil_r | constructor]. Qed.

Lemma emits_call (ev : event) (r : res A) : P ev -> emits P (call ev r).
Proof. intros H t. exists [ev]. split; [reflexivity | repeat constructor; exact H]. Qed.

Lemma emits_pbind (c : prog A) (k : A -> prog B) :
  emits P c -> (forall a, emits P (k a)) -> emits P (pbind c k).
Proof.
  intros Hc Hk t. unfold pbind.
  destruct (emits_run c Hc t) as (r & d & E & F). rewrite E.
  destruct r as [e | a].
  - exists d. split; [reflexivity | exact F].
  - destruct (Hk a (t ++ d)) as (d' & E' & F'). exists (d ++ d').
    split; [rewrite E', app_assoc; reflexivity | apply Forall_app; split; assumption].
Qed.
End Emits.

Section Stages.
Context (lib : Collaborators).

Lemma light_convert (m : string) : light (Call_convert m).
Proof. split; reflexivity. Qed.

Lemma emits_Image_convert (im : Image) (m : string) :
  emits light (Image_convert lib im m).
Proof. apply emits_call. apply light_convert. Qed.

Lemma emits_resize_image (im : Image) (max_dim : Z) :
  emits light (resize_image lib im max_dim).
Proof.
  unfold resize_image. destruct (size im) as [w h].
  destruct ((w <=? max_dim) && (h <=? max_dim)); [apply emits_pret |].
  apply emits_pbind; [apply emits_lift |].
  intros sz. apply emits_call. split; reflexivity.
Qed.

Lemma emits_enhance (o : SessionOptions) (im : Image) : emits light (enhance lib o im).
Proof.
  unfold enhance. apply emits_pbind.
  - destruct (use_sharpen o); [apply emits_call; split; reflexivity | apply emits_pret].
  - intros s. apply emits_pbind; [| intros c; apply emits_pret].
    destruct (use_contrast o); [apply emits_call; split; reflexivity | apply emits_pret].
Qed.

Lemma emits_composite (o : SessionOptions) (im : Image) :
  emits light (composite lib o im).
Proof.
  unfold composite. destruct (negb _); [| apply emits_pret].
  apply emits_pbind.
  - unfold Image_new. apply emits_pbind; [apply emits_call; split; reflexivity |].
    intros c. apply emits_lift.
  - intros bg. apply emits_pbind; [apply emits_lift |].
    intros bg'. apply emits_pbind; [apply emits_Image_convert |].
    intros f. apply emits_pret.
Qed.

(** The events of a run of the [try] block: the call of the decoder, light
    events, then either nothing more (a stage before rembg raised) or the
    call of rembg and light events. *)
Lemma process_image_try_calls (b : bytes) (o : SessionOptions) (t t' : list event)
  (r : res (Image * Image)) :
  process_image_try lib b o t = (r, t') ->
  exists d1 d2,
    t' = t ++ Call_open b :: d1 ++ d2 /\
    Forall light d1 /\
    ((d2 = [] /\ exists e, r = inl e) \/
     exists d3,
       d2 = Call_remove (alpha_matting o) (fg_threshold o) (bg_threshold o) :: d3 /\
       Forall light d3).
Proof.
  intros E. unfold process_image_try in E.
  unfold pbind at 1 in E. unfold call at 1 in E.
  destruct (Image_open lib b) as [e | original].
  { injection E as <- <-. exists [], []. cbn.
    split; [reflexivity |]. split; [constructor |].
    left. split; [reflexivity | eexists; reflexivity]. }
  set (t0 := t ++ [Call_open b]) in E.
  unfold pbind at 1 in E.
  destruct (emits_run light _
              (if negb (String.eqb (mode original) "RGBA") as c
                 return emits light (if c then Image_convert lib original "RGBA"
                                     else pret original)
               then emits_Image_convert original "RGBA"
               else emits_pret light original) t0) as (r1 & da & E1 & F1).
  rewrite E1 in E. destruct r1 as [e | rgba].
  { injection E as <- <-. exists da, []. unfold t0. rewrite <- !app_assoc, app_nil_r.
    split; [reflexivity |]. split; [exact F1 |].
    left. split; [reflexivity | eexists; reflexivity]. }
  unfold pbind at 1 in E.
  destruct (emits_run light _ (emits_resize_image rgba MAX_IMAGE_DIM) (t0 ++ da))
    as (r2 & db & E2 & F2).
  rewrite E2 in E. destruct r2 as [e | resized].
  { injection E as <- <-. exists (da ++ db), []. unfold t0.
    rewrite <- !app_assoc, app_nil_r.
    split; [reflexivity |]. split; [apply Forall_app; split; assumption |].
    left. split; [reflexivity | eexists; reflexivity]. }
  unfold pbind at 1 in E.
  destruct (emits_run light _ (emits_enhance o resized) ((t0 ++ da) ++ db))
    as (r3 & dc & E3 & F3).
  rewrite E3 in E.
  assert (Forall light (da ++ db ++ dc)) as F123
    by (repeat (apply Forall_app; split); assumption).
  destruct r3 as [e | processed].
  { injection E as <- <-. exists (da ++ db ++ dc), []. unfold t0.
    rewrite <- !app_assoc, app_nil_r.
    split; [reflexivity |]. split; [exact F123 |].
    left. split; [reflexivity | eexists; reflexivity]. }
  unfold pbind at 1 in E. unfold call at 1 in E.
  destruct (remove lib processed (alpha_matting o) (fg_threshold o) (bg_threshold o))
    as [e | removed].
  { injection E as <- <-.
    exists (da ++ db ++ dc),
           [Call_remove (alpha_matting o) (fg_threshold o) (bg_threshold o)].
    unfold t0. rewrite <- !app_assoc.
    split; [reflexivity |]. split; [exact F123 |].
    right. exists []. split; [reflexivity | constructor]. }
  unfold pbind at 1 in E.
  destruct (emits_run light _ (emits_composite o removed)
              ((((t0 ++ da) ++ db) ++ dc)
               ++ [Call_remove (alpha_matting o) (fg_threshold o) (bg_threshold o)]))
    as (r4 & dd & E4 & F4).
  rewrite E4 in E.
  exists (da ++ db ++ dc),
         (Call_remove (alpha_matting o) (fg_threshold o) (bg_threshold o) :: dd).
  split.
  { destruct r4; injection E as _ <-; unfold t0; rewrite <- !app_assoc; reflexivity. }
  split; [exact F123 |]. right. exists dd. split; [reflexivity | exact F4].
Qed.
End Stages.

Lemma count_events_app (p : event -> bool) (t1 t2 : list event) :
  count_events p (t1 ++ t2) = (count_events p t1 + count_events p t2)%nat.
Proof. unfold count_events. rewrite List.filter_app, length_app. reflexivity. Qed.

Lemma count_events_light (d : list event) :
  Forall light d -> count_events is_open d = 0%nat /\ count_events is_remove d = 0%nat.
Proof.
  unfold count_events. induction 1 as [| ev d [Ho Hr] _ [IHo IHr]]; [split; reflexivity |].
  cbn [List.filter]. rewrite Ho, Hr. split; assumption.
Qed.

(** X10. One run of [process_image] calls the decoder exactly once and
    rembg at most once, and exactly once when the run succeeds. *)
Theorem process_image_func_calls (lib : Collaborators) (b : bytes)
  (o : SessionOptions) (t : list event) :
  exists d,
    snd (process_image_func lib b o t) = t ++ d /\
    count_events is_open d = 1%nat /\
    (count_events is_remove d <= 1)%nat /\
    forall pre fin,
      fst (process_image_func lib b o t) = (Some pre, Some fin) ->
      count_events is_remove d = 1%nat.
Proof.
  unfold process_image_func.
  destruct (process_image_try lib b o t) as [r t1] eqn:E.
  apply process_image_try_calls in E as (d1 & d2 & -> & F1 & H).
  destruct (count_events_light d1 F1) as [O1 R1].
  destruct H as [[-> [e ->]] | (d3 & -> & F3)].
  - exists (Call_open b :: d1 ++ [St_error ("Error during image processing: " +:+ str e)]).
    cbn [fst snd]. split; [list_assoc |].
    change (Call_open b :: d1 ++ [St_error ("Error during image processing: " +:+ str e)])
      with ([Call_open b] ++ d1 ++ [St_error ("Error during image processing: " +:+ str e)]).
    rewrite !count_events_app, O1, R1. cbn.
    split; [reflexivity |]. split; [lia |]. intros pre fin [=].
  - destruct (count_events_light d3 F3) as [O3 R3].
    set (rm := Call_remove (alpha_matting o) (fg_threshold o) (bg_threshold o)) in *.
    assert (forall tl, count_events is_open ([Call_open b] ++ d1 ++ [rm] ++ d3 ++ tl)
                       = (1 + count_events is_open tl)%nat) as HO.
    { intros tl. rewrite !count_events_app, O1, O3. reflexivity. }
    assert (forall tl, count_events is_remove ([Call_open b] ++ d1 ++ [rm] ++ d3 ++ tl)
                       = (1 + count_events is_remove tl)%nat) as HR.
    { intros tl. rewrite !count_events_app, R1, R3. reflexivity. }
    destruct r as [e | [pre fin]]; cbn [fst snd].
    + exists ([Call_open b] ++ d1 ++ [rm] ++ d3
              ++ [St_error ("Error during image processing: " +:+ str e)]).
      split; [list_assoc |].
      rewrite HO, HR. cbn. split; [reflexivity |]. split; [lia |]. intros ? ? [=].
    + exists ([Call_open b] ++ d1 ++ [rm] ++ d3 ++ []).
      split; [rewrite app_nil_r; list_assoc |].
      rewrite HO, HR. cbn. split; [reflexivity |]. split; [lia |]. reflexivity.
Qed.

(** ** The cache, continued *)

(** X11. Every result is memoized, a success like a failure: after a call
    that ran the function, the same request made while the entry lives
    returns the same value from the cache; the cache is not changed and
    nothing but Streamlit elements is replayed (no library call). *)
Theorem process_image_memoized (lib : Collaborators) (now now' : Z) (b : bytes)
  (o : SessionOptions) (w : World) :
  (forall entry, cache w !! (b, o) = Some entry -> inserted entry + ttl <= now) ->
  now' < now + ttl ->
  exists v w1 replay,
    process_image lib now b o w = (v, w1) /\
    process_image lib now' b o w1 =
    (v, {| cache := cache w1; trace := trace w1 ++ replay |}) /\
    Forall (fun ev => is_st_element ev = true) replay.
Proof.
  intros Hmiss Hlive.
  rewrite (process_image_miss lib now b o w Hmiss).
  destruct (process_image_func lib b o []) as [v t].
  set (entry := {| value := v;
                   elements := filter (fun ev => is_st_element ev = true) t;
                   inserted := now |}).
  eexists v, _, (elements entry). split; [reflexivity |]. split.
  - rewrite (process_image_hit lib now' b o _ entry).
    + reflexivity.
    + cbn [cache]. apply lookup_insert_eq.
    + exact Hlive.
  - cbn [elements entry]. apply Forall_forall. intros ev Hev.
    apply list_elem_of_filter in Hev. tauto.
Qed.

Lemma process_image_memoized_witness :
  exists v w1 replay,
    process_image TestDouble.lib 0 Samples.red_dot_ppm Samples.default_options
      Samples.empty_world = (v, w1) /\
    process_image TestDouble.lib 3599 Samples.red_dot_ppm Samples.default_options w1 =
    (v, {| cache := cache w1; trace := trace w1 ++ replay |}) /\
    Forall (fun ev => is_st_element ev = true) replay.
Proof.
  apply (process_image_memoized TestDouble.lib 0 3599 Samples.red_dot_ppm
           Samples.default_options Samples.empty_world).
  - intros entry H. cbn [Samples.empty_world cache] in H.
    rewrite lookup_empty in H. discriminate.
  - reflexivity.
Defined.

(** X12. An entry as old as the time-to-live counts as absent: a call at or
    after [inserted + 3600] behaves as if the entry had been deleted, runs
    the function again and replaces the entry. *)
Theorem process_image_expired (lib : Collaborators) (now : Z) (b : bytes)
  (o : SessionOptions) (w : World) (entry : CacheEntry) :
  cache w !! (b, o) = Some entry -> inserted entry + ttl <= now ->
  process_image lib now b o w =
  process_image lib now b o {| cache := delete (b, o) (cache w); trace := trace w |}.
Proof.
  intros E Hold.
  rewrite (process_image_miss lib now b o w).
  - rewrite (process_image_miss lib now b o {| cache := delete (b, o) (cache w);
                                               trace := trace w |}).
    + destruct (process_image_func lib b o []) as [v t]. cbn [cache trace].
      rewrite insert_delete_eq. reflexivity.
    + intros entry' H. cbn [cache] in H. rewrite lookup_delete_eq in H. discriminate.
  - intros entry' H. rewrite E in H. injection H as <-. exact Hold.
Qed.

Lemma process_image_expired_witness :
  let old := {| value := (None, None); elements := []; inserted := 0 |} in
  let w := {| cache := {[ ([], Samples.default_options) := old ]}; trace := [] |} in
  process_image TestDouble.lib 3600 [] Samples.default_options w =
  process_image TestDouble.lib 3600 [] Samples.default_options
    {| cache := delete ([], Samples.default_options) (cache w); trace := trace w |}.
Proof.
  intros old w.
  apply (process_image_expired TestDouble.lib 3600 [] Samples.default_options w old).
  - apply lookup_singleton_eq.
  - vm_compute. discriminate.
Defined.

(** A call leaves the entries of the other keys as they were. *)
Lemma process_image_other_keys (lib : Collaborators) (now : Z) (b : bytes)
  (o : SessionOptions) (w : World) (key : bytes * SessionOptions) :
  key <> (b, o) ->
  cache (snd (process_image lib now b o w)) !! key = cache w !! key.
Proof.
  intros Hk. unfold process_image.
  destruct (process_image_func lib b o []) as [v t].
  destruct (cache w !! (b, o)) as [entry |] eqn:E;
    [destruct (now <? inserted entry + ttl) |]; cbn [snd cache].
  - reflexivity.
  - apply lookup_insert_ne. congruence.
  - apply lookup_insert_ne. congruence.
Qed.


(** X14. A request with other bytes or other options is not served by the
    entry of this one: if it had no live entry before the call, it has none
    after it, and the function runs for it. *)
Theorem process_image_other_key_misses (lib : Collaborators) (now now' : Z)
  (b b' : bytes) (o o' : SessionOptions) (w : World) :
  (b', o') <> (b, o) ->
  (forall entry, cache w !! (b', o') = Some entry -> inserted entry + ttl <= now') ->
  let w1 := snd (process_image lib now b o w) in
  process_image lib now' b' o' w1 =
  let '(v, t) := process_image_func lib b' o' [] in
  (v, {| cache := <[(b', o') := {| value := v;
                                   elements := filter (fun ev => is_st_element ev = true) t;
                                   inserted := now' |}]> (cache w1);
         trace := trace w1 ++ t |}).
Proof.
  intros Hk Hmiss w1. apply process_image_miss.
  intros entry H. apply Hmiss.
  rewrite <- (process_image_other_keys lib now b o w (b', o') Hk). exact H.
Qed.

Lemma process_image_other_key_misses_witness :
  let o := Samples.default_options in
  let o' := Samples.with_sharpen Samples.default_options in
  let w1 := snd (process_image TestDouble.lib 0 Samples.red_dot_ppm o
                   Samples.empty_world) in
  process_image TestDouble.lib 1 Samples.red_dot_ppm o' w1 =
  let '(v, t) := process_image_func TestDouble.lib Samples.red_dot_ppm o' [] in
  (v, {| cache := <[(Samples.red_dot_ppm, o') :=
                      {| value := v;
                         elements := filter (fun ev => is_st_element ev = true) t;
                         inserted := 1 |}]> (cache w1);
         trace := trace w1 ++ t |}).
Proof.
  intros o o' w1.
  apply (process_image_other_key_misses TestDouble.lib 0 1 Samples.red_dot_ppm
           Samples.red_dot_ppm o o' Samples.empty_world).
  - intros [=].
  - intros entry H. cbn [Samples.empty_world cache] in H.
    rewrite lookup_empty in H. discriminate.
Defined.

Lemma process_image_func_both_or_none (lib : Collaborators) (b : bytes)
  (o : SessionOptions) (t : list event) :
  both_or_none (fst (process_image_func lib b o t)).
Proof.
  unfold process_image_func.
  destruct (process_image_try lib b o t) as [[e | [pre fin]] t']; exact I.
Qed.

(** X15. [process_image] returns two images or [None] twice, never one
    image without the other, and the cache holds only such pairs: the
    invariant is kept by every call, hit or miss. *)
Theorem process_image_both_or_none (lib : Collaborators) (now : Z) (b : bytes)
  (o : SessionOptions) (w : World) :
  cache_ok w ->
  both_or_none (fst (process_image lib now b o w)) /\
  cache_ok (snd (process_image lib now b o w)).
Proof.
  intros Hok. unfold process_image.
  pose proof (process_image_func_both_or_none lib b o []) as Hrun.
  destruct (process_image_func lib b o []) as [v t]. cbn [fst] in Hrun.
  assert (cache_ok {| cache := <[(b, o) := {| value := v;
                        elements := filter (fun ev => is_st_element ev = true) t;
                        inserted := now |}]> (cache w);
                      trace := trace w ++ t |}) as Hins.
  { intros key entry. cbn [cache]. intros H.
    destruct (decide (key = (b, o))) as [-> | Hne].
    - rewrite lookup_insert_eq in H. injection H as <-. exact Hrun.
    - rewrite lookup_insert_ne in H by congruence. exact (Hok key entry H). }
  destruct (cache w !! (b, o)) as [entry |] eqn:E;
    [destruct (now <? inserted entry + ttl) |]; cbn [fst snd].
  - split; [exact (Hok _ _ E) | exact Hok].
  - split; [exact Hrun | exact Hins].
  - split; [exact Hrun | exact Hins].
Qed.

Lemma process_image_both_or_none_witness :
  both_or_none (fst (process_image TestDouble.lib 0 [] Samples.default_options
                       Samples.empty_world)) /\
  cache_ok (snd (process_image TestDouble.lib 0 [] Samples.default_options
                   Samples.empty_world)).
Proof.
  apply (process_image_both_or_none TestDouble.lib 0 [] Samples.default_options
           Samples.empty_world).
  intros key entry H. cbn [Samples.empty_world cache] in H.
  rewrite lookup_empty in H. discriminate.
Defined.

(** ** The page, continued *)

(** X16. When processing an upload within the size limit fails, the page
    shows nothing beyond what [process_image] did (its error message): no
    image, no download button, and [main] returns normally. *)
Theorem main_failure_shows_no_result (lib : Collaborators) (now : Z)
  (my_upload : UploadedFile.t) (o : SessionOptions) (w w1 : World) :
  UploadedFile.size my_upload <= MAX_FILE_SIZE ->
  process_image lib now (UploadedFile.getvalue my_upload) o w = ((None, None), w1) ->
  main lib now (Some my_upload) o w = (ok tt, w1).
Proof.
  intros Hsize Hrun. unfold main.
  rewrite (proj2 (Z.ltb_ge MAX_FILE_SIZE (UploadedFile.size my_upload)) Hsize).
  unfold wbind. rewrite Hrun. reflexivity.
Qed.

Lemma main_failure_shows_no_result_witness :
  let my_upload :=
    {| UploadedFile.name := "empty.png"; UploadedFile.size := 0;
       UploadedFile.getvalue := [] |} in
  exists w1,
    process_image TestDouble.lib 0 [] Samples.default_options Samples.empty_world =
    ((None, None), w1) /\
    main TestDouble.lib 0 (Some my_upload) Samples.default_options Samples.empty_world =
    (ok tt, w1).
Proof.
  intros my_upload. eexists. split; [reflexivity |].
  apply (main_failure_shows_no_result TestDouble.lib 0 my_upload
           Samples.default_options Samples.empty_world).
  - vm_compute. discriminate.
  - reflexivity.
Defined.

(** X17. When processing an upload within the size limit succeeds, the page
    shows the success note, the first image as the original and the second
    as the result, and encodes the second for download: as PNG
    ([image/png]) exactly when the background is ["transparent"], as JPEG
    ([image/jpeg]) otherwise, under the name [processed_<stem>.<format>];
    an exception of the encoder is not caught. *)
Theorem main_success_offers_download (lib : Collaborators) (now : Z)
  (my_upload : UploadedFile.t) (o : SessionOptions) (w w1 : World)
  (original fixed : Image) :
  UploadedFile.size my_upload <= MAX_FILE_SIZE ->
  process_image lib now (UploadedFile.getvalue my_upload) o w =
  ((Some original, Some fixed), w1) ->
  let transparent := String.eqb (bg_color o) "transparent" in
  let file_format := if transparent then "PNG" else "JPEG" in
  let shown :=
    trace w1 ++ [St_success; St_image original "Original Image";
                 St_image fixed "Processed Image"; Call_save file_format] in
  main lib now (Some my_upload) o w =
  match save lib fixed file_format with
  | inl e => (inl e, {| cache := cache w1; trace := shown |})
  | inr data =>
      (ok tt,
       {| cache := cache w1;
          trace := shown ++
            [St_download_button data
               ("processed_" +:+ before_dot (UploadedFile.name my_upload) +:+ "."
                +:+ (if transparent then "png" else "jpeg"))
               (if transparent then "image/png" else "image/jpeg")] |})
  end.
Proof.
  intros Hsize Hrun transparent file_format shown. unfold main.
  rewrite (proj2 (Z.ltb_ge MAX_FILE_SIZE (UploadedFile.size my_upload)) Hsize).
  unfold wbind at 1. rewrite Hrun. fold transparent. subst shown file_format.
  unfold wbind, on_trace, display_image_card, st, convert_image_to_bytes, call, ok.
  destruct transparent; cbn.
  - destruct (save lib fixed "PNG"); rewrite <- ?app_assoc; reflexivity.
  - destruct (save lib fixed "JPEG"); rewrite <- ?app_assoc; reflexivity.
Qed.

Lemma main_success_offers_download_witness :
  let my_upload :=
    {| UploadedFile.name := "red.dot.ppm"; UploadedFile.size := 38;
       UploadedFile.getvalue := Samples.red_dot_ppm |} in
  exists original fixed w1 data,
    process_image TestDouble.lib 0 Samples.red_dot_ppm Samples.default_options
      Samples.empty_world = ((Some original, Some fixed), w1) /\
    save TestDouble.lib fixed "JPEG" = ok data /\
    main TestDouble.lib 0 (Some my_upload) Samples.default_options Samples.empty_world =
    (ok tt,
     {| cache := cache w1;
        trace := (trace w1 ++ [St_success; St_image original "Original Image";
                               St_image fixed "Processed Image"; Call_save "JPEG"])
                 ++ [St_download_button data "processed_red.jpeg" "image/jpeg"] |}).
Proof.
  intros my_upload. do 4 eexists. split; [reflexivity |]. split; [reflexivity |].
  rewrite (main_success_offers_download TestDouble.lib 0 my_upload
             Samples.default_options Samples.empty_world _ _ _
             ltac:(vm_compute; discriminate) eq_refl).
  reflexivity.
Defined.

(** X18. In the default view the example file is decoded outside any
    handler: when [./zebra.jpg] exists and the decoder refuses it, [main]
    raises the decoder's exception after the welcome message, and
    [process_image] is not called. *)
Theorem main_default_view_unreadable_example (lib : Collaborators) (now : Z)
  (o : SessionOptions) (w : World) (default_bytes : bytes) (e : exn) :
  zebra_jpg lib = Some default_bytes ->
  Image_open lib default_bytes = raise e ->
  main lib now None o w =
  (raise e,
   {| cache := cache w;
      trace := trace w ++
        [St_info "Welcome! Upload an image using the sidebar to get started.";
         Call_open default_bytes] |}).
Proof.
  intros Hz Hopen. unfold main. rewrite Hz.
  unfold wbind, on_trace, st, call. cbn [trace cache]. rewrite Hopen.
  rewrite <- app_assoc. reflexivity.
Qed.

Lemma main_default_view_unreadable_example_witness :
  main (lib_with_example []) 0 None Samples.default_options Samples.empty_world =
  (raise TestDouble.UnidentifiedImageError,
   {| cache := ∅;
      trace := [] ++
        [St_info "Welcome! Upload an image using the sidebar to get started.";
         Call_open []] |}).
Proof.
  apply (main_default_view_unreadable_example (lib_with_example []) 0
           Samples.default_options Samples.empty_world []
           TestDouble.UnidentifiedImageError);
    reflexivity.
Defined.
